(** * The storage facade of the node (store/store.go)

    A shallow embedding of the [store] type of package [store] and of
    the parts of the Go runtime, of the key-value engine and of the
    sub-stores that its methods go through, followed by the properties
    of the storage layer. *)

From Stdlib Require Import ZArith List Lia Bool Strings.Byte.
From stdpp Require Import base option list gmap sorting.
Import ListNotations.

Local Open Scope Z_scope.

(** ** Go values *)

Abbreviation bytes := (list Byte.byte).

#[global] Instance byte_eq_decision : EqDecision Byte.byte := Byte.byte_eq_dec.

#[global] Program Instance byte_countable : Countable Byte.byte :=
  inj_countable Byte.to_N Byte.of_N _.
Next Obligation. exact Byte.of_to_N. Qed.

Module Go.

(** [uint32] and [int32] values are integers in range; the arithmetic of
    the language wraps around. *)
Definition uint32 (z : Z) : Z := z mod 2 ^ 32.
Definition int32 (z : Z) : Z := (z + 2 ^ 31) mod 2 ^ 32 - 2 ^ 31.

Definition byte_of_Z (z : Z) : Byte.byte :=
  default Byte.x00 (Byte.of_N (Z.to_N (z mod 256))).
Definition Z_of_byte (b : Byte.byte) : Z := Z.of_N (Byte.to_N b).

(** A byte slice: the elements up to its length, and the rest of the
    backing array up to its capacity. *)
Record slice := Slice { elems : bytes; spare : bytes }.

Definition len (s : slice) : Z := Z.of_nat (length (elems s)).
Definition cap (s : slice) : Z := Z.of_nat (length (elems s ++ spare s)).

(** [s[lo:hi]]: the indices are in range when [0 <= lo <= hi <= cap(s)];
    out of range, the runtime panics ([None]). *)
Definition reslice (s : slice) (lo hi : Z) : option slice :=
  let arr := elems s ++ spare s in
  if (0 <=? lo) && (lo <=? hi) && (hi <=? cap s)
  then Some {| elems := take (Z.to_nat (hi - lo)) (drop (Z.to_nat lo) arr);
               spare := drop (Z.to_nat hi) arr |}
  else None.

(** [s[lo:]]: the upper index defaults to [len(s)]. *)
Definition reslice_from (s : slice) (lo : Z) : option slice :=
  if lo <=? len s then reslice s lo (len s) else None.

(** [(T, error)] results, and calls that return or panic. *)
Inductive error : Type :=
| ErrNotFound            (* errors.New("not found") *)
| ErrBadOffset           (* errors.New("offset is out of range") *)
| leveldb_ErrNotFound    (* the engine's error for an absent key *)
| leveldb_ErrClosed      (* the engine's error once the handle is closed *)
| leveldb_failure (code : nat) (* any other failure of the engine *)
| ErrDecode.             (* a decoder rejected its input *)

Inductive result (A : Type) : Type :=
| Ok (a : A)
| Err (e : error).

Inductive outcome (A : Type) : Type :=
| Return (a : A)
| Panic.

#[global] Arguments Ok {A} a.
#[global] Arguments Err {A} e.
#[global] Arguments Return {A} a.
#[global] Arguments Panic {A}.

#[global] Instance error_eq_decision : EqDecision error.
Proof. solve_decision. Defined.

End Go.
Export Go.

(** ** Fixed-width integers in stored records *)

Module encoding.

(** Modelled from the spec: the fixed-width integer codec of package
    [util/encoding] is missing; section 6 has every stored multi-byte
    integer fixed-width and big-endian. *)
Definition PutUint32 (v : Z) : bytes :=
  [byte_of_Z (v / 2 ^ 24); byte_of_Z (v / 2 ^ 16); byte_of_Z (v / 2 ^ 8); byte_of_Z v].

Definition Uint32 (b : bytes) : option (Z * bytes) :=
  match b with
  | b3 :: b2 :: b1 :: b0 :: rest =>
      Some (Z_of_byte b3 * 2 ^ 24 + Z_of_byte b2 * 2 ^ 16 + Z_of_byte b1 * 2 ^ 8 + Z_of_byte b0,
            rest)
  | _ => None
  end.

(** Modelled from the spec: [util.SliceToUint32] is missing; section 6
    has bytes 33 to 36 of a stored block hold the time stamp as a
    little-endian 32-bit value. *)
Definition SliceToUint32 (b : bytes) : Z :=
  match b with
  | b0 :: b1 :: b2 :: b3 :: _ =>
      Z_of_byte b0 + Z_of_byte b1 * 2 ^ 8 + Z_of_byte b2 * 2 ^ 16 + Z_of_byte b3 * 2 ^ 24
  | _ => 0
  end.

End encoding.

(** ** The key-value engine *)

Module leveldb.

(** The engine is consumed through get, has, batch write, close and
    ordered iteration.  Its state is the table of stored values and the
    failure it is in, if any: a closed handle, or a medium that cannot
    be read or written. *)
Record DB := mkDB { kv : gmap bytes bytes; fault : option error }.

(** A batch is the sequence of its [Put] records. *)
Abbreviation Batch := (list (bytes * bytes)).

Definition Put (b : Batch) (key value : bytes) : Batch := b ++ [(key, value)].

Definition replay (b : Batch) (m : gmap bytes bytes) : gmap bytes bytes :=
  fold_left (fun m kv => <[kv.1 := kv.2]> m) b m.

(** The value last put under [key] in the batch. *)
Definition pending (b : Batch) (key : bytes) : option bytes :=
  snd <$> find (fun kv => bool_decide (kv.1 = key)) (rev b).

(** The bytes of the backing array past the end of the copy that [Get]
    returns: the allocator rounds the array up to a size class. *)
Class Allocator := { slack : bytes -> bytes }.

Definition Get `{Allocator} (db : DB) (key : bytes) : result slice :=
  match fault db with
  | Some e => Err e
  | None =>
      match kv db !! key with
      | Some v => Ok (Slice v (slack v))
      | None => Err leveldb_ErrNotFound
      end
  end.

Definition Has (db : DB) (key : bytes) : result bool :=
  match fault db with
  | Some e => Err e
  | None => Ok (bool_decide (is_Some (kv db !! key)))
  end.

(** A batch is written as a whole or not at all. *)
Definition Write (db : DB) (b : Batch) : DB * option error :=
  match fault db with
  | Some e => (db, Some e)
  | None => (mkDB (replay b (kv db)) None, None)
  end.

Definition Close (db : DB) : DB * option error :=
  match fault db with
  | Some e => (db, Some e)
  | None => (mkDB (kv db) (Some leveldb_ErrClosed), None)
  end.

(** Keys are ordered byte by byte. *)
Fixpoint bytes_le (a b : bytes) : bool :=
  match a, b with
  | [], _ => true
  | _ :: _, [] => false
  | x :: a', y :: b' =>
      if (Byte.to_N x <? Byte.to_N y)%N then true
      else if (Byte.to_N y <? Byte.to_N x)%N then false
      else bytes_le a' b'
  end.

Definition entry_le (x y : bytes * bytes) : Prop := bytes_le x.1 y.1 = true.

#[global] Instance entry_le_dec : RelDecision entry_le :=
  fun x y => decide (bytes_le x.1 y.1 = true).

(** The entries that an iterator over the keys with a prefix steps
    through, in the order of their keys; an engine in failure yields
    none. *)
Definition NewIterator (db : DB) (prefix : bytes) : list (bytes * bytes) :=
  match fault db with
  | Some _ => []
  | None =>
      merge_sort entry_le
        (filter (fun e => prefix `prefix_of` e.1) (map_to_list (kv db)))
  end.

End leveldb.
Export leveldb.

(** ** Types of the other packages *)

Module hash.

Definition HashSize : Z := 32.

(** [hash.Hash] is an array of [HashSize] bytes. *)
Abbreviation Hash := bytes.

(** Modelled from the spec: package [crypto/hash] is missing; a hash is
    exactly 32 bytes, and [FromBytes] rejects any other length. *)
Definition FromBytes (data : bytes) : result Hash :=
  if bool_decide (Z.of_nat (length data) = HashSize) then Ok data else Err ErrDecode.

Definition UndefHash : Hash := replicate 32 Byte.x00.

End hash.

(** Addresses are byte strings ([crypto.Address]). *)
Abbreviation Address := bytes.

(** The certificate of package [types/certificate], as far as the store
    uses it: its height, and its variant encoding written to and read
    from a byte stream. *)
Class CertificateOps := {
  Certificate_t : Type;
  cert_Height : Certificate_t -> Z;
  cert_Encode : Certificate_t -> option bytes;
  cert_Decode : bytes -> option Certificate_t;
  cert_Height_uint32 : forall c, 0 <= cert_Height c < 2 ^ 32
}.

(** The block of package [types/block]: its hash, its transactions with
    their ids, its serialization, and the region that the serialization
    of each transaction occupies in the stored value. *)
Class BlockOps := {
  Block_t : Type;
  Tx_t : Type;
  blk_Hash : Block_t -> hash.Hash;
  blk_Transactions : Block_t -> list Tx_t;
  tx_ID : Tx_t -> hash.Hash;
  blk_Bytes : Block_t -> bytes;
  blk_Regions : Block_t -> list (Z * Z);
  blk_Hash_size : forall b, Z.of_nat (length (blk_Hash b)) = hash.HashSize;
  tx_ID_size : forall t, Z.of_nat (length (tx_ID t)) = hash.HashSize;
  blk_Regions_length : forall b, length (blk_Regions b) = length (blk_Transactions b)
}.

(** The public key of package [crypto/bls]. *)
Class PublicKeyOps := {
  PublicKey_t : Type;
  PublicKeyFromBytes : bytes -> result PublicKey_t
}.

(** The account of package [types/account] with its serialization. *)
Class AccountOps := {
  Account_t : Type;
  acc_Bytes : Account_t -> bytes;
  acc_FromBytes : bytes -> option Account_t
}.

(** The validator of package [types/validator]: its address, the number
    carried inside the record, and its serialization. *)
Class ValidatorOps := {
  Validator_t : Type;
  val_Address : Validator_t -> Address;
  val_Number : Validator_t -> Z;
  val_withNumber : Z -> Validator_t -> Validator_t;
  val_Bytes : Validator_t -> bytes;
  val_FromBytes : bytes -> option Validator_t;
  val_Address_withNumber : forall n v, val_Address (val_withNumber n v) = val_Address v;
  val_Number_withNumber : forall n v, val_Number (val_withNumber n v) = n
}.

(** ** Package store *)

Module store.

Definition lastStoreVersion : Z := 1.

Definition lastInfoKey : bytes := [Byte.x00].
Definition blockPrefix : bytes := [Byte.x01].
Definition txPrefix : bytes := [Byte.x03].
Definition accountPrefix : bytes := [Byte.x05].
Definition validatorPrefix : bytes := [Byte.x07].
Definition blockHeightPrefix : bytes := [Byte.x09].
Definition publicKeyPrefix : bytes := [Byte.x0a].

Definition tryGet `{Allocator} (db : DB) (key : bytes) : result slice :=
  match Get db key with
  | Err err => Err err
  | Ok data => Ok data
  end.

(** Modelled from the spec: the key functions are missing; section 6 gives
    each table its one-byte prefix followed by the big-endian height, the
    hash, the transaction id or the address. *)
Definition blockKey (height : Z) : bytes := blockPrefix ++ encoding.PutUint32 height.
Definition blockHashKey (h : hash.Hash) : bytes := blockHeightPrefix ++ h.
Definition txKey (id : hash.Hash) : bytes := txPrefix ++ id.
Definition accountKey (addr : Address) : bytes := accountPrefix ++ addr.
Definition validatorKey (addr : Address) : bytes := validatorPrefix ++ addr.
Definition publicKeyKey (addr : Address) : bytes := publicKeyPrefix ++ addr.

(** The position record of a transaction. *)
Module blockRegion.
Record t := mk { height : Z; offset : Z; length : Z }.
End blockRegion.

(** *** Block store *)

(** Modelled from the spec: [blockStore.saveBlock] is missing; section 4.1
    has it put hash followed by the serialized block under the height key,
    put the height under the hash key, and return one position record
    per transaction. *)
Definition blockStore_saveBlock `{BlockOps} (batch : Batch) (h : Z) (blk : Block_t)
  : Batch * list blockRegion.t :=
  let batch := Put batch (blockKey h) (blk_Hash blk ++ blk_Bytes blk) in
  let batch := Put batch (blockHashKey (blk_Hash blk)) (encoding.PutUint32 h) in
  (batch, map (fun r => blockRegion.mk h r.1 r.2) (blk_Regions blk)).

(** Modelled from the spec: [blockStore.block] is missing; section 4.1 has
    it return the stored bytes of the height, or the absence of the key. *)
Definition blockStore_block `{Allocator} (db : DB) (h : Z) : result slice :=
  tryGet db (blockKey h).

(** Modelled from the spec: [blockStore.blockHeight] is missing; section
    4.1 has it return the height stored under the hash, and 0 when there
    is none. *)
Definition blockStore_blockHeight `{Allocator} (db : DB) (h : hash.Hash) : Z :=
  match tryGet db (blockHashKey h) with
  | Err _ => 0
  | Ok data =>
      match encoding.Uint32 (elems data) with
      | Some (v, _) => v
      | None => 0
      end
  end.

(** *** Transaction store *)

(** Modelled from the spec: [txStore.saveTx] is missing; section 4.2 has it
    put the 12-byte position record under the transaction id. *)
Definition txStore_saveTx (batch : Batch) (id : hash.Hash) (reg : blockRegion.t) : Batch :=
  Put batch (txKey id)
    (encoding.PutUint32 (blockRegion.height reg)
       ++ encoding.PutUint32 (blockRegion.offset reg)
       ++ encoding.PutUint32 (blockRegion.length reg)).

(** Modelled from the spec: [txStore.tx] is missing; section 4.2 has it
    return the position record of the id, or the absence of the key; a
    record too short to hold three integers is a decoding failure. *)
Definition txStore_tx `{Allocator} (db : DB) (id : hash.Hash) : result blockRegion.t :=
  match tryGet db (txKey id) with
  | Err err => Err err
  | Ok data =>
      match encoding.Uint32 (elems data) with
      | None => Err ErrDecode
      | Some (h, r1) =>
          match encoding.Uint32 r1 with
          | None => Err ErrDecode
          | Some (o, r2) =>
              match encoding.Uint32 r2 with
              | None => Err ErrDecode
              | Some (l, _) => Ok (blockRegion.mk h o l)
              end
          end
      end
  end.

(** *** Account store *)

(** Modelled from the spec: [accountStore] is missing; section 2 has it
    keep a running count in memory. *)
Record accountStore := mkAccountStore { acc_total : Z }.

(** Modelled from the spec: [accountStore.hasAccount] is missing; by
    sections 4.3 and 5 existence is looked up in the engine, the batch
    being never read back before it is flushed. *)
Definition accountStore_hasAccount (d : DB) (addr : Address) : bool :=
  match Has d (accountKey addr) with
  | Ok has => has
  | Err _ => false
  end.

(** Modelled from the spec: [accountStore.account] is missing; section 4.3
    has it return the account of the address, or the absence of the key. *)
Definition accountStore_account `{Allocator} `{AccountOps} (d : DB) (addr : Address)
  : result Account_t :=
  match tryGet d (accountKey addr) with
  | Err err => Err err
  | Ok data =>
      match acc_FromBytes (elems data) with
      | Some acc => Ok acc
      | None => Err ErrDecode
      end
  end.

(** Modelled from the spec: [accountStore.updateAccount] is missing;
    section 4.3 has it check existence, count an address that does not
    exist yet, and put the serialized account under the address. *)
Definition accountStore_updateAccount `{AccountOps} (a : accountStore) (d : DB)
    (batch : Batch) (addr : Address) (acc : Account_t) : accountStore * Batch :=
  let data := acc_Bytes acc in
  let a' := if accountStore_hasAccount d addr then a
            else mkAccountStore (int32 (acc_total a + 1)) in
  (a', Put batch (accountKey addr) data).

(** Modelled from the spec: [accountStore.iterateAccounts] is missing;
    section 4.3 has it hand every account, in the order of the keys, to
    the consumer, until the consumer says stop.  The consumer is a
    closure: [C] is the state it closes over.  A stored record that is
    not an account is a corruption, and ends the traversal in a panic. *)
Fixpoint iterate_accounts `{AccountOps} {C : Type}
    (consumer : C -> Address -> Account_t -> C * bool)
    (entries : list (bytes * bytes)) (c : C) : outcome C :=
  match entries with
  | [] => Return c
  | (key, value) :: entries' =>
      match acc_FromBytes value with
      | None => Panic
      | Some acc =>
          let '(c', stopped) := consumer c (drop 1 key) acc in
          if stopped then Return c' else iterate_accounts consumer entries' c'
      end
  end.

Definition accountStore_iterateAccounts `{AccountOps} {C : Type} (d : DB)
    (consumer : C -> Address -> Account_t -> C * bool) (c : C) : outcome C :=
  iterate_accounts consumer (NewIterator d accountPrefix) c.

(** *** Validator store *)

(** Modelled from the spec: [validatorStore] is missing; sections 2 and 3
    have it keep in memory a running count and the list of the addresses
    of its validators, which the dense numbers index. *)
Record validatorStore := mkValidatorStore { val_total : Z; val_addresses : list Address }.

(** Modelled from the spec: [validatorStore.hasValidator] is missing; a
    validator is known once its address is in the list. *)
Definition validatorStore_hasValidator (v : validatorStore) (addr : Address) : bool :=
  bool_decide (addr ∈ val_addresses v).

(** Modelled from the spec: [validatorStore.updateValidator] is missing;
    section 4.4 has it give a validator seen for the first time the
    number one past the current maximum, which with dense numbers is
    the length of the list, and leave the number of a validator seen
    before as it is; the number is carried inside the record. *)
Definition validatorStore_updateValidator `{ValidatorOps} (v : validatorStore)
    (batch : Batch) (val : Validator_t) : validatorStore * Batch :=
  let addr := val_Address val in
  match list_find (fun a => a = addr) (val_addresses v) with
  | Some (i, _) =>
      (v, Put batch (validatorKey addr) (val_Bytes (val_withNumber (int32 (Z.of_nat i)) val)))
  | None =>
      let num := int32 (Z.of_nat (List.length (val_addresses v))) in
      (mkValidatorStore (int32 (val_total v + 1)) (val_addresses v ++ [addr]),
       Put batch (validatorKey addr) (val_Bytes (val_withNumber num val)))
  end.

(** The lookups of [validatorStore] that are missing and that no
    modelled section of the specification pins down: by address, by
    number, and the traversal with its consumer.  They read the
    sub-store and the engine. *)
Class ValidatorReads `{ValidatorOps} := {
  validatorStore_validator : validatorStore -> DB -> Address -> result Validator_t;
  validatorStore_validatorByNumber : validatorStore -> DB -> Z -> result Validator_t;
  validatorStore_iterateValidators :
    forall C : Type, validatorStore -> DB -> (C -> Validator_t -> C * bool) -> C -> outcome C
}.

(** *** The store and its operations *)

(** The events of the reader-writer lock [lk]. *)
Inductive lock_event := EvLock | EvUnlock | EvRLock | EvRUnlock.

(** The sub-stores share the engine handle [db] of the store, and every
    one of them writes to its one [batch]. *)
Record store := mkStore {
  lk : list lock_event;
  db : DB;
  batch : Batch;
  accounts : accountStore;
  validators : validatorStore
}.

Definition with_lk (s : store) (l : list lock_event) : store :=
  mkStore l (db s) (batch s) (accounts s) (validators s).
Definition with_db (s : store) (d : DB) : store :=
  mkStore (lk s) d (batch s) (accounts s) (validators s).
Definition with_batch (s : store) (b : Batch) : store :=
  mkStore (lk s) (db s) b (accounts s) (validators s).
Definition with_accounts (s : store) (a : accountStore) : store :=
  mkStore (lk s) (db s) (batch s) a (validators s).
Definition with_validators (s : store) (v : validatorStore) : store :=
  mkStore (lk s) (db s) (batch s) (accounts s) v.

(** [NewStore] for a configuration whose path holds no store yet: the
    engine opens empty and the batch is new.  Modelled from the spec: the
    constructors of the sub-stores are missing; over an empty engine
    their counts are 0 and the list of validator addresses is empty. *)
Definition NewStore : store :=
  mkStore [] (mkDB ∅ None) [] (mkAccountStore 0) (mkValidatorStore 0 []).

(** A method of the store: from the state before the call to what the
    call returns, or its panic, and the state after it. *)
Definition M (A : Type) : Type := store -> outcome A * store.

Definition ret {A} (a : A) : M A := fun s => (Return a, s).
Definition panic {A} : M A := fun s => (Panic, s).
Definition bind {A B} (m : M A) (k : A -> M B) : M B :=
  fun s => match m s with
           | (Return a, s') => k a s'
           | (Panic, s') => (Panic, s')
           end.
Definition gets {A} (f : store -> A) : M A := fun s => (Return (f s), s).
Definition modify (f : store -> store) : M unit := fun s => (Return tt, f s).

Declare Scope store_scope.
Delimit Scope store_scope with M.
Notation "x <- m ;; k" := (bind m (fun x => k))
  (at level 100, m at next level, right associativity) : store_scope.
Notation "m ;;; k" := (bind m (fun _ => k))
  (at level 100, right associativity) : store_scope.
Local Open Scope store_scope.

(** [s.lk.Lock(); defer s.lk.Unlock()]: the deferred call runs when the
    body returns, and when it panics. *)
Definition locked {A} (body : M A) : M A :=
  fun s => let '(r, s') := body (with_lk s (lk s ++ [EvLock])) in
           (r, with_lk s' (lk s' ++ [EvUnlock])).

(** [s.lk.RLock(); defer s.lk.RUnlock()]. *)
Definition rlocked {A} (body : M A) : M A :=
  fun s => let '(r, s') := body (with_lk s (lk s ++ [EvRLock])) in
           (r, with_lk s' (lk s' ++ [EvRUnlock])).

Definition eval {A} (m : M A) (s : store) : outcome A := (m s).1.
Definition exec {A} (m : M A) (s : store) : store := (m s).2.

(** The handle a lookup of a block returns, and the one a lookup of a
    transaction returns (their pointer back to the store is left out). *)
Module CommittedBlock.
Record t := mk { BlockHash : hash.Hash; Height : Z; Data : slice }.
End CommittedBlock.

Module CommittedTx.
Record t := mk { TxID : hash.Hash; Height : Z; BlockTime : Z; Data : slice }.
End CommittedTx.

Section Facade.
Context `{Allocator} `{CertificateOps} `{BlockOps} `{PublicKeyOps}.
Context `{AccountOps} `{ValidatorOps}.

Definition Close : M (option error) :=
  locked (fun s => let '(d, err) := leveldb.Close (db s) in (Return err, with_db s d)).

(** The loop of [SaveBlock] over the transactions of the block; [reg[i]]
    panics when [i] is out of range. *)
Fixpoint saveTxs (i : nat) (txs : list Tx_t) (reg : list blockRegion.t) : M unit :=
  match txs with
  | [] => ret tt
  | trx :: txs' =>
      match reg !! i with
      | None => panic
      | Some r =>
          modify (fun s => with_batch s (txStore_saveTx (batch s) (tx_ID trx) r)) ;;;
          saveTxs (S i) txs' reg
      end
  end.

Definition SaveBlock (blk : Block_t) (cert : Certificate_t) : M unit :=
  locked (
    let height := cert_Height cert in
    reg <- (fun s => let '(b, reg) := blockStore_saveBlock (batch s) height blk in
                     (Return reg, with_batch s b)) ;;
    saveTxs 0 (blk_Transactions blk) reg ;;;
    (* Save last certificate: [version: 4 bytes]+[certificate: variant] *)
    let w := encoding.PutUint32 lastStoreVersion in
    match cert_Encode cert with
    | None => panic
    | Some c => modify (fun s => with_batch s (Put (batch s) lastInfoKey (w ++ c)))
    end).

Definition Block (height : Z) : M (result CommittedBlock.t) :=
  locked (
    d <- gets db ;;
    match blockStore_block d height with
    | Err err => ret (Err err)
    | Ok data =>
        match reslice data 0 hash.HashSize with
        | None => panic
        | Some h =>
            match hash.FromBytes (elems h) with
            | Err err => ret (Err err)
            | Ok blockHash =>
                match reslice_from data hash.HashSize with
                | None => panic
                | Some rest => ret (Ok (CommittedBlock.mk blockHash height rest))
                end
            end
        end
    end).

Definition BlockHeight (h : hash.Hash) : M Z :=
  locked (d <- gets db ;; ret (blockStore_blockHeight d h)).

Definition BlockHash (height : Z) : M hash.Hash :=
  locked (
    d <- gets db ;;
    match blockStore_block d height with
    | Ok data =>
        match reslice data 0 hash.HashSize with
        | None => panic
        | Some h =>
            match hash.FromBytes (elems h) with
            | Ok blockHash => ret blockHash
            | Err _ => ret hash.UndefHash
            end
        end
    | Err _ => ret hash.UndefHash
    end).

Definition PublicKey (addr : Address) : M (result PublicKey_t) :=
  d <- gets db ;;
  match tryGet d (publicKeyKey addr) with
  | Err err => ret (Err err)
  | Ok bs =>
      match PublicKeyFromBytes (elems bs) with
      | Err err => ret (Err err)
      | Ok pubKey => ret (Ok pubKey)
      end
  end.

Definition Transaction (id : hash.Hash) : M (result CommittedTx.t) :=
  locked (
    d <- gets db ;;
    match txStore_tx d id with
    | Err err => ret (Err err)
    | Ok pos =>
        match blockStore_block d (blockRegion.height pos) with
        | Err err => ret (Err err)
        | Ok data =>
            let start := blockRegion.offset pos in
            let end_ := uint32 (blockRegion.offset pos + blockRegion.length pos) in
            if bool_decide (end_ > uint32 (len data)) then ret (Err ErrBadOffset)
            else
              match reslice data (hash.HashSize + 1) (hash.HashSize + 5) with
              | None => panic
              | Some t =>
                  let blockTime := encoding.SliceToUint32 (elems t) in
                  match reslice data start end_ with
                  | None => panic
                  | Some txData =>
                      ret (Ok (CommittedTx.mk id (blockRegion.height pos) blockTime txData))
                  end
              end
        end
    end).

Definition AnyRecentTransaction (id : hash.Hash) : M bool :=
  locked (
    d <- gets db ;;
    ret (match txStore_tx d id with Ok _ => true | Err _ => false end)).

(** [data, _ := tryGet(...)]: [data] is nil exactly when the read failed,
    the engine returning a copy, which is never nil, of a stored value. *)
Definition LastCertificate : M (option Certificate_t) :=
  locked (
    d <- gets db ;;
    match tryGet d lastInfoKey with
    | Err _ =>
        (* Genesis block *)
        ret None
    | Ok data =>
        match encoding.Uint32 (elems data) with
        | None => ret None
        | Some (version, r) =>
            match cert_Decode r with
            | None => ret None
            | Some cert => ret (Some cert)
            end
        end
    end).

Definition WriteBatch : M (option error) :=
  locked (fun s =>
    match leveldb.Write (db s) (batch s) with
    | (d, Some err) => (Return (Some err), with_db s d)
    | (d, None) => (Return None, with_batch (with_db s d) [])
    end).

Definition HasAccount (addr : Address) : M bool :=
  locked (d <- gets db ;; ret (accountStore_hasAccount d addr)).

Definition Account (addr : Address) : M (result Account_t) :=
  locked (d <- gets db ;; ret (accountStore_account d addr)).

Definition TotalAccounts : M Z :=
  locked (gets (fun s => acc_total (accounts s))).

Definition IterateAccounts {C : Type}
    (consumer : C -> Address -> Account_t -> C * bool) (c : C) : M C :=
  locked (fun s => (accountStore_iterateAccounts (db s) consumer c, s)).

Definition UpdateAccount (addr : Address) (acc : Account_t) : M unit :=
  locked (
    modify (fun s =>
      let '(a, b) := accountStore_updateAccount (accounts s) (db s) (batch s) addr acc in
      with_batch (with_accounts s a) b)).

Definition HasValidator (addr : Address) : M bool :=
  locked (gets (fun s => validatorStore_hasValidator (validators s) addr)).

Definition ValidatorAddresses : M (list Address) :=
  rlocked (gets (fun s => val_addresses (validators s))).

Definition TotalValidators : M Z :=
  locked (gets (fun s => val_total (validators s))).

Definition UpdateValidator (acc : Validator_t) : M unit :=
  locked (
    modify (fun s =>
      let '(v, b) := validatorStore_updateValidator (validators s) (batch s) acc in
      with_batch (with_validators s v) b)).

Context `{!ValidatorReads}.

Definition Validator (addr : Address) : M (result Validator_t) :=
  locked (gets (fun s => validatorStore_validator (validators s) (db s) addr)).

Definition ValidatorByNumber (num : Z) : M (result Validator_t) :=
  locked (gets (fun s => validatorStore_validatorByNumber (validators s) (db s) num)).

Definition IterateValidators {C : Type}
    (consumer : C -> Validator_t -> C * bool) (c : C) : M C :=
  locked (fun s =>
    (validatorStore_iterateValidators C (validators s) (db s) consumer c, s)).

End Facade.

(** *** Runs of the callers *)

(** The records that [SaveBlock] appends to the batch. *)
Definition tx_puts `{BlockOps} (txs : list Tx_t) (reg : list blockRegion.t) : Batch :=
  map (fun p => (txKey (tx_ID p.1),
                 encoding.PutUint32 (blockRegion.height p.2)
                   ++ encoding.PutUint32 (blockRegion.offset p.2)
                   ++ encoding.PutUint32 (blockRegion.length p.2)))
      (zip txs reg).

Definition block_puts `{BlockOps} (h : Z) (blk : Block_t) (c : bytes) : Batch :=
  [(blockKey h, blk_Hash blk ++ blk_Bytes blk);
   (blockHashKey (blk_Hash blk), encoding.PutUint32 h)]
  ++ tx_puts (blk_Transactions blk)
       (map (fun r => blockRegion.mk h r.1 r.2) (blk_Regions blk))
  ++ [(lastInfoKey, encoding.PutUint32 lastStoreVersion ++ c)].

(** A commit: the block and its certificate are saved, then the batch is
    written. *)
Definition commit `{CertificateOps} `{BlockOps} (bc : Block_t * Certificate_t) : M unit :=
  SaveBlock bc.1 bc.2 ;;; WriteBatch ;;; ret tt.

Fixpoint commits `{CertificateOps} `{BlockOps} (bcs : list (Block_t * Certificate_t)) : M unit :=
  match bcs with
  | [] => ret tt
  | bc :: bcs' => commit bc ;;; commits bcs'
  end.

(** The ids of the transactions of the blocks of a run of commits. *)
Fixpoint committed_ids `{CertificateOps} `{BlockOps}
    (bcs : list (Block_t * Certificate_t)) : list hash.Hash :=
  match bcs with
  | [] => []
  | bc :: bcs' => map tx_ID (blk_Transactions bc.1) ++ committed_ids bcs'
  end.







(** The calls of [UpdateValidator], in order. *)
Fixpoint validator_calls `{ValidatorOps} (vals : list Validator_t) : M unit :=
  match vals with
  | [] => ret tt
  | val :: vals' => UpdateValidator val ;;; validator_calls vals'
  end.

(** The addresses of a list in the order in which they first occur. *)
Fixpoint first_seen (seen l : list Address) : list Address :=
  match l with
  | [] => seen
  | a :: l' => first_seen (if bool_decide (a ∈ seen) then seen else seen ++ [a]) l'
  end.

(** The position at which an address occurs first. *)
Definition position (l : list Address) (a : Address) : Z :=
  match list_find (fun x => x = a) l with
  | Some (i, _) => Z.of_nat i
  | None => -1
  end.

End store.
Export store.

(** ** The methods with their accesses recorded

    The methods once more, over a monad that records, beside the state,
    the events of a call in their order: the events of the lock, and one
    event for each step that reads or writes a field of the store.  The
    bodies are those of the methods above, word for word; what differs
    is that a step on the state says whether it reads or writes. *)

Module Traced.

Inductive event := Lk (e : lock_event) | Read | Write.

Definition T (A : Type) : Type := store -> outcome A * store * list event.

Definition ret {A} (a : A) : T A := fun s => (Return a, s, []).
Definition panic {A} : T A := fun s => (Panic, s, []).
Definition bind {A B} (m : T A) (k : A -> T B) : T B :=
  fun s => match m s with
           | (Return a, s', t) => let '(r, s'', t') := k a s' in (r, s'', t ++ t')
           | (Panic, s', t) => (Panic, s', t)
           end.
Definition gets {A} (f : store -> A) : T A := fun s => (Return (f s), s, [Read]).
Definition modify (f : store -> store) : T unit := fun s => (Return tt, f s, [Write]).

(** A call into a sub-store or into the engine that reads the state and
    may panic, and one that changes the state. *)
Definition reads {A} (f : store -> outcome A) : T A := fun s => (f s, s, [Read]).
Definition writes {A} (f : store -> outcome A * store) : T A :=
  fun s => let '(r, s') := f s in (r, s', [Write]).

Declare Scope traced_scope.
Delimit Scope traced_scope with T.
Notation "x <- m ;; k" := (bind m (fun x => k))
  (at level 100, m at next level, right associativity) : traced_scope.
Notation "m ;;; k" := (bind m (fun _ => k))
  (at level 100, right associativity) : traced_scope.
Local Open Scope traced_scope.

(** [s.lk.Lock(); defer s.lk.Unlock()]: the events of the body lie
    between the two events of the lock, also when the body panics. *)
Definition locked {A} (body : T A) : T A :=
  fun s => let '(r, s', t) := body (with_lk s (lk s ++ [EvLock])) in
           (r, with_lk s' (lk s' ++ [EvUnlock]), Lk EvLock :: t ++ [Lk EvUnlock]).

(** [s.lk.RLock(); defer s.lk.RUnlock()]. *)
Definition rlocked {A} (body : T A) : T A :=
  fun s => let '(r, s', t) := body (with_lk s (lk s ++ [EvRLock])) in
           (r, with_lk s' (lk s' ++ [EvRUnlock]), Lk EvRLock :: t ++ [Lk EvRUnlock]).

(** What a call returns and the state it leaves, and its events. *)
Definition erase {A} (m : T A) : M A := fun s => (m s).1.

Definition is_access (e : event) : Prop := e = Read \/ e = Write.
Definition is_read (e : event) : Prop := e = Read.

(** The events of a call that takes the lock [acq] first, releases it
    with [rel] last, and between the two does nothing but access the
    state, at least once, in the ways [allowed]. *)
Definition brackets (acq rel : lock_event) (allowed : event -> Prop)
    (t : list event) : Prop :=
  exists body, t = Lk acq :: body ++ [Lk rel] /\ body <> [] /\ Forall allowed body.

(** Who holds the lock, and whether the events [t], starting with the
    lock in the hands of [h], read the state only while the lock is
    held, write it only while it is held exclusively, and leave the lock
    free. *)
Inductive holder := Free | Shared | Exclusive.

Fixpoint guarded (h : holder) (t : list event) : bool :=
  match t with
  | [] => match h with Free => true | _ => false end
  | Lk EvLock :: t' => match h with Free => guarded Exclusive t' | _ => false end
  | Lk EvUnlock :: t' => match h with Exclusive => guarded Free t' | _ => false end
  | Lk EvRLock :: t' => match h with Free => guarded Shared t' | _ => false end
  | Lk EvRUnlock :: t' => match h with Shared => guarded Free t' | _ => false end
  | Read :: t' => match h with Free => false | _ => guarded h t' end
  | Write :: t' => match h with Exclusive => guarded h t' | _ => false end
  end.

Section Facade.
Context `{Allocator} `{CertificateOps} `{BlockOps} `{PublicKeyOps}.
Context `{AccountOps} `{ValidatorOps} `{!ValidatorReads}.

Definition Close : T (option error) :=
  locked (writes (fun s =>
    let '(d, err) := leveldb.Close (db s) in (Return err, with_db s d))).

Fixpoint saveTxs (i : nat) (txs : list Tx_t) (reg : list blockRegion.t) : T unit :=
  match txs with
  | [] => ret tt
  | trx :: txs' =>
      match reg !! i with
      | None => panic
      | Some r =>
          modify (fun s => with_batch s (txStore_saveTx (batch s) (tx_ID trx) r)) ;;;
          saveTxs (S i) txs' reg
      end
  end.

Definition SaveBlock (blk : Block_t) (cert : Certificate_t) : T unit :=
  locked (
    let height := cert_Height cert in
    reg <- writes (fun s => let '(b, reg) := blockStore_saveBlock (batch s) height blk in
                            (Return reg, with_batch s b)) ;;
    saveTxs 0 (blk_Transactions blk) reg ;;;
    let w := encoding.PutUint32 lastStoreVersion in
    match cert_Encode cert with
    | None => panic
    | Some c => modify (fun s => with_batch s (Put (batch s) lastInfoKey (w ++ c)))
    end).

Definition Block (height : Z) : T (result CommittedBlock.t) :=
  locked (
    d <- gets db ;;
    match blockStore_block d height with
    | Err err => ret (Err err)
    | Ok data =>
        match reslice data 0 hash.HashSize with
        | None => panic
        | Some h =>
            match hash.FromBytes (elems h) with
            | Err err => ret (Err err)
            | Ok blockHash =>
                match reslice_from data hash.HashSize with
                | None => panic
                | Some rest => ret (Ok (CommittedBlock.mk blockHash height rest))
                end
            end
        end
    end).

Definition BlockHeight (h : hash.Hash) : T Z :=
  locked (d <- gets db ;; ret (blockStore_blockHeight d h)).

Definition BlockHash (height : Z) : T hash.Hash :=
  locked (
    d <- gets db ;;
    match blockStore_block d height with
    | Ok data =>
        match reslice data 0 hash.HashSize with
        | None => panic
        | Some h =>
            match hash.FromBytes (elems h) with
            | Ok blockHash => ret blockHash
            | Err _ => ret hash.UndefHash
            end
        end
    | Err _ => ret hash.UndefHash
    end).

Definition PublicKey (addr : Address) : T (result PublicKey_t) :=
  d <- gets db ;;
  match tryGet d (publicKeyKey addr) with
  | Err err => ret (Err err)
  | Ok bs =>
      match PublicKeyFromBytes (elems bs) with
      | Err err => ret (Err err)
      | Ok pubKey => ret (Ok pubKey)
      end
  end.

Definition Transaction (id : hash.Hash) : T (result CommittedTx.t) :=
  locked (
    d <- gets db ;;
    match txStore_tx d id with
    | Err err => ret (Err err)
    | Ok pos =>
        match blockStore_block d (blockRegion.height pos) with
        | Err err => ret (Err err)
        | Ok data =>
            let start := blockRegion.offset pos in
            let end_ := uint32 (blockRegion.offset pos + blockRegion.length pos) in
            if bool_decide (end_ > uint32 (len data)) then ret (Err ErrBadOffset)
            else
              match reslice data (hash.HashSize + 1) (hash.HashSize + 5) with
              | None => panic
              | Some t =>
                  let blockTime := encoding.SliceToUint32 (elems t) in
                  match reslice data start end_ with
                  | None => panic
                  | Some txData =>
                      ret (Ok (CommittedTx.mk id (blockRegion.height pos) blockTime txData))
                  end
              end
        end
    end).

Definition AnyRecentTransaction (id : hash.Hash) : T bool :=
  locked (
    d <- gets db ;;
    ret (match txStore_tx d id with Ok _ => true | Err _ => false end)).

Definition LastCertificate : T (option Certificate_t) :=
  locked (
    d <- gets db ;;
    match tryGet d lastInfoKey with
    | Err _ => ret None
    | Ok data =>
        match encoding.Uint32 (elems data) with
        | None => ret None
        | Some (version, r) =>
            match cert_Decode r with
            | None => ret None
            | Some cert => ret (Some cert)
            end
        end
    end).

Definition WriteBatch : T (option error) :=
  locked (writes (fun s =>
    match leveldb.Write (db s) (batch s) with
    | (d, Some err) => (Return (Some err), with_db s d)
    | (d, None) => (Return None, with_batch (with_db s d) [])
    end)).

Definition HasAccount (addr : Address) : T bool :=
  locked (d <- gets db ;; ret (accountStore_hasAccount d addr)).

Definition Account (addr : Address) : T (result Account_t) :=
  locked (d <- gets db ;; ret (accountStore_account d addr)).

Definition TotalAccounts : T Z :=
  locked (gets (fun s => acc_total (accounts s))).

Definition IterateAccounts {C : Type}
    (consumer : C -> Address -> Account_t -> C * bool) (c : C) : T C :=
  locked (reads (fun s => accountStore_iterateAccounts (db s) consumer c)).

Definition UpdateAccount (addr : Address) (acc : Account_t) : T unit :=
  locked (
    modify (fun s =>
      let '(a, b) := accountStore_updateAccount (accounts s) (db s) (batch s) addr acc in
      with_batch (with_accounts s a) b)).

Definition HasValidator (addr : Address) : T bool :=
  locked (gets (fun s => validatorStore_hasValidator (validators s) addr)).

Definition ValidatorAddresses : T (list Address) :=
  rlocked (gets (fun s => val_addresses (validators s))).

Definition TotalValidators : T Z :=
  locked (gets (fun s => val_total (validators s))).

Definition UpdateValidator (acc : Validator_t) : T unit :=
  locked (
    modify (fun s =>
      let '(v, b) := validatorStore_updateValidator (validators s) (batch s) acc in
      with_batch (with_validators s v) b)).

Definition Validator (addr : Address) : T (result Validator_t) :=
  locked (gets (fun s => validatorStore_validator (validators s) (db s) addr)).

Definition ValidatorByNumber (num : Z) : T (result Validator_t) :=
  locked (gets (fun s => validatorStore_validatorByNumber (validators s) (db s) num)).

Definition IterateValidators {C : Type}
    (consumer : C -> Validator_t -> C * bool) (c : C) : T C :=
  locked (reads (fun s =>
    validatorStore_iterateValidators C (validators s) (db s) consumer c)).

End Facade.



End Traced.

(** ** A small instance

    An allocator that rounds the backing array up to a multiple of 16
    bytes, and the smallest certificates, blocks and keys that have what
    the store uses of them; and a first block. *)

Module Example.

#[export] Instance alloc : Allocator :=
  {| slack := fun v => replicate ((16 - List.length v mod 16) mod 16) Byte.x00 |}.

(** A certificate: its height, in one byte, and its signature. *)
#[export] Program Instance certs : CertificateOps := {|
  Certificate_t := Byte.byte * bytes;
  cert_Height := fun c => Z_of_byte c.1;
  cert_Encode := fun c => Some (c.1 :: c.2);
  cert_Decode := fun b => match b with h :: sig => Some (h, sig) | [] => None end
|}.
Next Obligation.
  intros [h sig]. unfold Z_of_byte. simpl.
  pose proof (Byte.to_N_bounded h). lia.
Qed.

(** A block: the byte its hash repeats, its serialization, and its
    transactions, each with the byte its id repeats and its region. *)
Record block := mkBlock {
  seed : Byte.byte;
  body : bytes;
  txs : list (Byte.byte * (Z * Z))
}.

#[export] Program Instance blocks : BlockOps := {|
  Block_t := block;
  Tx_t := Byte.byte * (Z * Z);
  blk_Hash := fun b => replicate 32 (seed b);
  blk_Transactions := txs;
  tx_ID := fun t => replicate 32 t.1;
  blk_Bytes := body;
  blk_Regions := fun b => map snd (txs b)
|}.
Next Obligation. intros b. reflexivity. Qed.
Next Obligation. intros t. reflexivity. Qed.
Next Obligation. intros b. simpl. by rewrite length_map. Qed.

#[export] Instance keys : PublicKeyOps := {|
  PublicKey_t := bytes;
  PublicKeyFromBytes := fun b =>
    if bool_decide (List.length b = 4%nat) then Ok b else Err ErrDecode
|}.

(** Bytes [lo], [lo+1], ... *)
Definition ramp (lo n : nat) : bytes := map (fun i => byte_of_Z (Z.of_nat i)) (seq lo n).

(** A block of 168 bytes, stored in 200 with its hash, whose one
    transaction is recorded at offset 40 with length 120. *)
Definition tx0 : @Tx_t blocks := (Byte.xaa, (40, 120)).
Definition block1 : @Block_t blocks := mkBlock Byte.x11 (ramp 32 168) [tx0].
Definition cert1 : @Certificate_t certs := (Byte.x01, [Byte.x5a; Byte.xa5]).

Definition committed1 : store :=
  exec WriteBatch (exec (SaveBlock block1 cert1) NewStore).

(** A second block of the same size, whose one transaction occupies the
    bytes 40 to 160 of its serialization, and is recorded at offset 72
    of the stored value. *)
Definition tx1 : @Tx_t blocks := (Byte.xcc, (72, 120)).
Definition block2 : @Block_t blocks := mkBlock Byte.x22 (ramp 32 168) [tx1].
Definition cert2 : @Certificate_t certs := (Byte.x02, [Byte.x7e]).

Definition committed2 : store :=
  exec (commits [(block1, cert1); (block2, cert2)]) NewStore.

(** A store whose position record of the id made of [0xaa] points past
    the end of the 32-bit range, into block 1. *)
Definition stale : store :=
  with_db committed1
    (mkDB (<[txKey (replicate 32 Byte.xaa) :=
              encoding.PutUint32 1 ++ encoding.PutUint32 4294967295 ++ encoding.PutUint32 2]>
             (kv (db committed1))) None).

(** An account: its balance, in one byte. *)
#[export] Instance account_codec : AccountOps := {|
  Account_t := Byte.byte;
  acc_Bytes := fun a => [a];
  acc_FromBytes := fun b => match b with [a] => Some a | _ => None end
|}.

Definition alice : Address := [Byte.x0a; Byte.x11].
Definition bob : Address := [Byte.x0b; Byte.x0b].

(** A validator: its address, its number and its stake, in one byte. *)
#[export] Instance validator_codec : ValidatorOps := {|
  Validator_t := Address * Z * Byte.byte;
  val_Address := fun v => v.1.1;
  val_Number := fun v => v.1.2;
  val_withNumber := fun n v => (v.1.1, n, v.2);
  val_Bytes := fun v => encoding.PutUint32 v.1.2 ++ v.2 :: v.1.1;
  val_FromBytes := fun b =>
    match encoding.Uint32 b with
    | Some (n, stake :: addr) => Some (addr, n, stake)
    | _ => None
    end;
  val_Address_withNumber := fun _ _ => eq_refl;
  val_Number_withNumber := fun _ _ => eq_refl
|}.

Definition validator (addr : Address) (n : Z) (stake : Byte.byte)
  : @Validator_t validator_codec := (addr, n, stake).

(** Stores that hold a record which no commit has written: a position
    record whose range ends past block 1, one that points to a height
    with no block, a block value of 10 bytes with a position record into
    it, a block value of 20 bytes, and a last certificate under another
    version. *)
Definition with_record (s : store) (key value : bytes) : store :=
  with_db s (mkDB (<[key := value]> (kv (db s))) (fault (db s))).

Definition past_end : store :=
  with_record committed1 (txKey (replicate 32 Byte.xaa))
    (encoding.PutUint32 1 ++ encoding.PutUint32 150 ++ encoding.PutUint32 100).

Definition dangling : store :=
  with_record committed1 (txKey (replicate 32 Byte.xdd))
    (encoding.PutUint32 9 ++ encoding.PutUint32 0 ++ encoding.PutUint32 4).

Definition short_block : store :=
  with_record (with_record committed1 (blockKey 3) (ramp 0 10))
    (txKey (replicate 32 Byte.xee))
    (encoding.PutUint32 3 ++ encoding.PutUint32 0 ++ encoding.PutUint32 5).

Definition clipped_block : store := with_record committed1 (blockKey 4) (ramp 1 20).

Definition other_version : store :=
  with_record NewStore lastInfoKey
    ([Byte.xff; Byte.xff; Byte.xff; Byte.xff] ++ [Byte.x07; Byte.x5a]).

(** Certificates that encode only when they are signed. *)
Program Definition signed_certs : CertificateOps := {|
  Certificate_t := Byte.byte * bytes;
  cert_Height := fun c => Z_of_byte c.1;
  cert_Encode := fun c => if bool_decide (c.2 = []) then None else Some (c.1 :: c.2);
  cert_Decode := fun b => match b with h :: sig => Some (h, sig) | [] => None end
|}.
Next Obligation.
  intros [h sig]. unfold Z_of_byte. simpl.
  pose proof (Byte.to_N_bounded h). lia.
Qed.

Definition unsigned : @Certificate_t signed_certs := (Byte.x03, []).

(** Lookups of validators that read the engine and the list of
    addresses. *)
#[export] Instance validator_reads : ValidatorReads := {|
  validatorStore_validator := fun _ d addr =>
    match tryGet d (validatorKey addr) with
    | Err err => Err err
    | Ok data =>
        match val_FromBytes (elems data) with
        | Some val => Ok val
        | None => Err ErrDecode
        end
    end;
  validatorStore_validatorByNumber := fun v d num =>
    match val_addresses v !! Z.to_nat num with
    | None => Err ErrNotFound
    | Some addr =>
        match tryGet d (validatorKey addr) with
        | Err err => Err err
        | Ok data =>
            match val_FromBytes (elems data) with
            | Some val => Ok val
            | None => Err ErrDecode
            end
        end
    end;
  validatorStore_iterateValidators := fun C _ _ _ c => Return c
|}.

End Example.

(** * Properties *)

Local Open Scope store_scope.

#[local] Set Warnings "-clear-no-such-hyp".

#[local] Arguments uint32 : simpl never.
#[local] Arguments int32 : simpl never.
#[local] Arguments len : simpl never.
#[local] Arguments cap : simpl never.
#[local] Arguments reslice : simpl never.
#[local] Arguments reslice_from : simpl never.
#[local] Arguments tryGet : simpl never.
#[local] Arguments txStore_tx : simpl never.
#[local] Arguments blockStore_block : simpl never.
#[local] Arguments blockStore_blockHeight : simpl never.
#[local] Arguments hash.FromBytes : simpl never.
#[local] Arguments hash.HashSize : simpl never.
#[local] Arguments encoding.Uint32 : simpl never.
#[local] Arguments encoding.PutUint32 : simpl never.
#[local] Arguments encoding.SliceToUint32 : simpl never.
#[local] Arguments Z.pow : simpl never.

(** ** Bytes and fixed-width integers *)

Lemma Z_of_byte_range (b : Byte.byte) : 0 <= Z_of_byte b < 256.
Proof.
  unfold Z_of_byte. pose proof (Byte.to_N_bounded b) as Hb. lia.
Qed.

Lemma Z_of_byte_of_Z (z : Z) : Z_of_byte (byte_of_Z z) = z mod 256.
Proof.
  unfold Z_of_byte, byte_of_Z.
  assert (Hr : 0 <= z mod 256 < 256) by (apply Z.mod_pos_bound; lia).
  destruct (Byte.of_N (Z.to_N (z mod 256))) as [b|] eqn:Hb.
  - apply Byte.to_of_N in Hb. simpl. rewrite Hb. lia.
  - apply Byte.of_N_None_iff in Hb. lia.
Qed.

Lemma Uint32_range (b rest : bytes) (v : Z) :
  encoding.Uint32 b = Some (v, rest) -> 0 <= v < 2 ^ 32.
Proof.
  unfold encoding.Uint32.
  destruct b as [|b3 [|b2 [|b1 [|b0 r]]]]; try discriminate.
  intros [= <- _].
  pose proof (Z_of_byte_range b3). pose proof (Z_of_byte_range b2).
  pose proof (Z_of_byte_range b1). pose proof (Z_of_byte_range b0). lia.
Qed.

Lemma Uint32_PutUint32 (v : Z) (rest : bytes) :
  0 <= v < 2 ^ 32 -> encoding.Uint32 (encoding.PutUint32 v ++ rest) = Some (v, rest).
Proof.
  intros Hv. unfold encoding.PutUint32, encoding.Uint32. simpl. rewrite !Z_of_byte_of_Z.
  do 2 f_equal.
  assert (H24 : v / 2 ^ 24 < 256) by (apply Z.div_lt_upper_bound; lia).
  assert (H24' : 0 <= v / 2 ^ 24) by (apply Z.div_pos; lia).
  rewrite (Z.mod_small (v / 2 ^ 24)) by lia.
  change (2 ^ 24) with (2 ^ 16 * 256). change (2 ^ 16) with (2 ^ 8 * 256).
  change (2 ^ 8) with 256.
  rewrite <- !Z.div_div by lia.
  pose proof (Z.div_mod v 256 ltac:(lia)) as E0.
  pose proof (Z.div_mod (v / 256) 256 ltac:(lia)) as E1.
  pose proof (Z.div_mod (v / 256 / 256) 256 ltac:(lia)) as E2.
  lia.
Qed.

Lemma PutUint32_inj (v w : Z) :
  0 <= v < 2 ^ 32 -> 0 <= w < 2 ^ 32 ->
  encoding.PutUint32 v = encoding.PutUint32 w -> v = w.
Proof.
  intros Hv Hw E.
  pose proof (Uint32_PutUint32 v [] Hv) as Ev.
  pose proof (Uint32_PutUint32 w [] Hw) as Ew.
  rewrite E in Ev. rewrite Ev in Ew. congruence.
Qed.

(** ** Slices *)

Lemma reslice_elems (s s' : slice) (lo hi : Z) :
  reslice s lo hi = Some s' -> hi <= len s ->
  elems s' = take (Z.to_nat (hi - lo)) (drop (Z.to_nat lo) (elems s)).
Proof.
  unfold reslice, len. intros Hr Hhi.
  destruct (_ && _) eqn:Hc; [|discriminate].
  apply andb_prop in Hc as [Hc _]. apply andb_prop in Hc as [H0 Hlh].
  apply Z.leb_le in H0, Hlh.
  injection Hr as <-. simpl.
  rewrite drop_app_le by lia.
  rewrite take_app_le; [done|]. rewrite length_drop. lia.
Qed.

Lemma reslice_backwards (s : slice) (lo hi : Z) : hi < lo -> reslice s lo hi = None.
Proof.
  intros Hlt. unfold reslice.
  replace (lo <=? hi) with false by (symmetry; apply Z.leb_gt; lia).
  by rewrite andb_false_r.
Qed.

Lemma reslice_in_range (s : slice) (lo hi : Z) :
  0 <= lo <= hi -> hi <= cap s -> is_Some (reslice s lo hi).
Proof.
  intros [H0 Hlh] Hc. unfold reslice.
  replace (0 <=? lo) with true by (symmetry; apply Z.leb_le; lia).
  replace (lo <=? hi) with true by (symmetry; apply Z.leb_le; lia).
  replace (hi <=? cap s) with true by (symmetry; apply Z.leb_le; lia).
  simpl. eauto.
Qed.

Lemma len_le_cap (s : slice) : len s <= cap s.
Proof. unfold len, cap. rewrite length_app. lia. Qed.

(** ** Lookup of a transaction *)

Ltac run := unfold eval, exec, locked, rlocked, bind, gets, modify, ret, panic; simpl.

Lemma txStore_tx_range `{Allocator} (d : DB) (id : hash.Hash) (pos : blockRegion.t) :
  txStore_tx d id = Ok pos ->
  0 <= blockRegion.height pos < 2 ^ 32
  /\ 0 <= blockRegion.offset pos < 2 ^ 32
  /\ 0 <= blockRegion.length pos < 2 ^ 32.
Proof.
  unfold txStore_tx. destruct (tryGet d (txKey id)) as [data|]; [|discriminate].
  destruct (encoding.Uint32 (elems data)) as [[h r1]|] eqn:E1; [|discriminate].
  destruct (encoding.Uint32 r1) as [[o r2]|] eqn:E2; [|discriminate].
  destruct (encoding.Uint32 r2) as [[l r3]|] eqn:E3; [|discriminate].
  intros [= <-]. simpl.
  pose proof (Uint32_range _ _ _ E1). pose proof (Uint32_range _ _ _ E2).
  pose proof (Uint32_range _ _ _ E3). tauto.
Qed.

Lemma uint32_len_le (data : slice) : 0 <= uint32 (len data) <= len data.
Proof.
  unfold uint32. assert (0 <= len data) by (unfold len; lia).
  pose proof (Z.mod_pos_bound (len data) (2 ^ 32) ltac:(lia)).
  pose proof (Z.mod_le (len data) (2 ^ 32) ltac:(lia) ltac:(lia)). lia.
Qed.

(** X1: a range that ends past the stored bytes, and below [2^32], is
    reported as a bad offset. *)
Lemma Transaction_bad_offset `{Allocator} (s : store) (id : hash.Hash)
    (pos : blockRegion.t) (data : slice) :
  txStore_tx (db s) id = Ok pos ->
  blockStore_block (db s) (blockRegion.height pos) = Ok data ->
  blockRegion.offset pos + blockRegion.length pos < 2 ^ 32 ->
  len data < blockRegion.offset pos + blockRegion.length pos ->
  eval (Transaction id) s = Return (Err ErrBadOffset).
Proof.
  intros Htx Hblk Hno Hpast.
  destruct (txStore_tx_range _ _ _ Htx) as (_ & Ho & Hl).
  assert (Hgt : uint32 (blockRegion.offset pos + blockRegion.length pos)
                > uint32 (len data)).
  { pose proof (uint32_len_le data).
    unfold uint32 at 1. rewrite Z.mod_small by lia. lia. }
  unfold Transaction. run. rewrite Htx, Hblk.
  rewrite (bool_decide_eq_true_2 _ Hgt). reflexivity.
Qed.

(** C10: the end of the range is computed modulo [2^32]; when the sum of
    offset and length reaches [2^32] and the wrapped end is within the
    stored bytes, the guard lets the record pass, the end lies below the
    start, the slice expression is out of range, and the call panics
    instead of reporting a bad offset. *)
Theorem Transaction_wrapped_end_panics `{Allocator} (s : store) (id : hash.Hash)
    (pos : blockRegion.t) (data : slice) :
  txStore_tx (db s) id = Ok pos ->
  blockStore_block (db s) (blockRegion.height pos) = Ok data ->
  2 ^ 32 <= blockRegion.offset pos + blockRegion.length pos ->
  uint32 (blockRegion.offset pos + blockRegion.length pos) <= uint32 (len data) ->
  uint32 (blockRegion.offset pos + blockRegion.length pos) < blockRegion.offset pos
  /\ reslice data (blockRegion.offset pos)
       (uint32 (blockRegion.offset pos + blockRegion.length pos)) = None
  /\ eval (Transaction id) s = Panic.
Proof.
  intros Htx Hblk Hwrap Hguard.
  destruct (txStore_tx_range _ _ _ Htx) as (_ & Ho & Hl).
  assert (Hend : uint32 (blockRegion.offset pos + blockRegion.length pos)
                 = blockRegion.offset pos + blockRegion.length pos - 2 ^ 32).
  { unfold uint32.
    rewrite <- (Z.mod_add _ (-1) (2 ^ 32)) by lia.
    rewrite Z.mod_small; lia. }
  assert (Hlt : uint32 (blockRegion.offset pos + blockRegion.length pos)
                < blockRegion.offset pos) by lia.
  split; [exact Hlt|]. split; [by apply reslice_backwards|].
  unfold Transaction. run. rewrite Htx, Hblk.
  rewrite bool_decide_eq_false_2 by lia.
  destruct (reslice data _ _); [|reflexivity].
  by rewrite reslice_backwards.
Qed.

Lemma FromBytes_take (data : bytes) :
  hash.HashSize <= Z.of_nat (List.length data) ->
  hash.FromBytes (take (Z.to_nat hash.HashSize) data) = Ok (take (Z.to_nat hash.HashSize) data).
Proof.
  intros Hlen. unfold hash.FromBytes.
  rewrite bool_decide_eq_true_2; [done|].
  rewrite length_take. unfold hash.HashSize in *. lia.
Qed.

(** A stored value of at least 32 bytes is handed out as its leading 32
    bytes, the hash, and the bytes that follow them. *)
Lemma Block_of_stored `{Allocator} (s : store) (h : Z) (data : slice) :
  blockStore_block (db s) h = Ok data ->
  hash.HashSize <= len data ->
  exists rest,
    eval (Block h) s
    = Return (Ok (CommittedBlock.mk (take (Z.to_nat hash.HashSize) (elems data)) h rest))
    /\ elems rest = drop (Z.to_nat hash.HashSize) (elems data).
Proof.
  intros Hblk Hlen. pose proof (len_le_cap data) as Hcap.
  assert (H32 : hash.HashSize = 32) by reflexivity.
  destruct (reslice_in_range data 0 hash.HashSize) as [hs Hhs]; [lia|lia|].
  destruct (reslice_in_range data hash.HashSize (len data)) as [rest Hrest]; [lia|lia|].
  pose proof (reslice_elems _ _ _ _ Hhs ltac:(lia)) as Ehs.
  pose proof (reslice_elems _ _ _ _ Hrest ltac:(lia)) as Erest.
  rewrite Z.sub_0_r in Ehs. change (Z.to_nat 0) with 0%nat in Ehs. rewrite drop_0 in Ehs.
  exists rest. split.
  - unfold Block. run. rewrite Hblk, Hhs, Ehs.
    rewrite FromBytes_take by (unfold len in Hlen; lia).
    unfold reslice_from. rewrite (proj2 (Z.leb_le _ _)) by lia.
    by rewrite Hrest.
  - rewrite Erest. apply take_ge. rewrite length_drop. unfold len. lia.
Qed.

(** The bytes returned for a transaction are the bytes of its recorded
    range in the stored value of its block, the hash included: in the
    data of the block as [Block] returns them, they start 32 bytes before
    the recorded offset.  A lookup of an id that has no position record
    returns the absence of the key. *)
Lemma Transaction_of_stored_record `{Allocator} (s : store) (id : hash.Hash) :
  (forall pos data,
      txStore_tx (db s) id = Ok pos ->
      blockStore_block (db s) (blockRegion.height pos) = Ok data ->
      len data < 2 ^ 32 ->
      blockRegion.offset pos + blockRegion.length pos <= len data ->
      hash.HashSize + 5 <= cap data ->
      exists tx,
        eval (Transaction id) s = Return (Ok tx)
        /\ CommittedTx.TxID tx = id
        /\ CommittedTx.Height tx = blockRegion.height pos
        /\ elems (CommittedTx.Data tx)
           = take (Z.to_nat (blockRegion.length pos))
               (drop (Z.to_nat (blockRegion.offset pos)) (elems data))
        /\ (hash.HashSize <= blockRegion.offset pos ->
            exists blk,
              eval (Block (blockRegion.height pos)) s = Return (Ok blk)
              /\ elems (CommittedTx.Data tx)
                 = take (Z.to_nat (blockRegion.length pos))
                     (drop (Z.to_nat (blockRegion.offset pos - hash.HashSize))
                        (elems (CommittedBlock.Data blk)))))
  /\ (fault (db s) = None -> kv (db s) !! txKey id = None ->
      eval (Transaction id) s = Return (Err leveldb_ErrNotFound)).
Proof.
  split.
  - intros pos data Htx Hblk Hlen Hin Hcap.
    destruct (txStore_tx_range _ _ _ Htx) as (_ & Ho & Hl).
    assert (H32 : hash.HashSize = 32) by reflexivity.
    assert (Hend : uint32 (blockRegion.offset pos + blockRegion.length pos)
                   = blockRegion.offset pos + blockRegion.length pos).
    { unfold uint32. apply Z.mod_small. lia. }
    assert (Hlen' : uint32 (len data) = len data).
    { unfold uint32. apply Z.mod_small. unfold len in *. lia. }
    pose proof (len_le_cap data) as Hlc.
    destruct (reslice_in_range data (hash.HashSize + 1) (hash.HashSize + 5))
      as [t Ht]; [lia|lia|].
    destruct (reslice_in_range data (blockRegion.offset pos)
                (blockRegion.offset pos + blockRegion.length pos))
      as [txData Hd]; [lia|lia|].
    pose proof (reslice_elems _ _ _ _ Hd Hin) as Ed.
    replace (blockRegion.offset pos + blockRegion.length pos - blockRegion.offset pos)
      with (blockRegion.length pos) in Ed by lia.
    eexists. split; [|split; [|split; [|split]]].
    + unfold Transaction. run. rewrite Htx, Hblk.
      rewrite bool_decide_eq_false_2 by lia.
      rewrite Ht, Hend, Hd. reflexivity.
    + reflexivity.
    + reflexivity.
    + exact Ed.
    + intros Hoff. simpl.
      destruct (Block_of_stored s _ data Hblk ltac:(lia)) as (rest & Eb & Er).
      eexists. split; [exact Eb|]. simpl. rewrite Ed, Er, drop_drop.
      do 2 f_equal. lia.
  - intros Hf Hnone. unfold Transaction. run.
    unfold txStore_tx, tryGet, Get. by rewrite Hf, Hnone.
Qed.

(** ** The batch and its flush *)

Lemma replay_snoc (b : Batch) (key value : bytes) (m : gmap bytes bytes) :
  replay (Put b key value) m = <[key := value]> (replay b m).
Proof. unfold replay, Put. by rewrite fold_left_app. Qed.

Lemma pending_snoc (b : Batch) (key value k : bytes) :
  pending (Put b key value) k
  = if bool_decide (key = k) then Some value else pending b k.
Proof.
  unfold pending, Put. rewrite rev_app_distr. simpl.
  by destruct (bool_decide (key = k)).
Qed.

Lemma replay_lookup (b : Batch) (m : gmap bytes bytes) (k : bytes) :
  replay b m !! k = match pending b k with Some v => Some v | None => m !! k end.
Proof.
  induction b as [|[key value] b IH] using rev_ind; [reflexivity|].
  change (b ++ [(key, value)]) with (Put b key value).
  rewrite replay_snoc, pending_snoc, lookup_insert.
  destruct (decide (key = k)) as [->|Hne].
  - by rewrite bool_decide_eq_true_2.
  - by rewrite bool_decide_eq_false_2.
Qed.

Lemma WriteBatch_ok (s : store) :
  fault (db s) = None ->
  WriteBatch s
  = (Return None,
     mkStore (lk s ++ [EvLock; EvUnlock]) (mkDB (replay (batch s) (kv (db s))) None) []
       (accounts s) (validators s)).
Proof.
  intros Hf. unfold WriteBatch, locked, leveldb.Write. simpl. rewrite Hf.
  unfold with_lk, with_batch, with_db. simpl. by rewrite <- app_assoc.
Qed.

Lemma WriteBatch_failed (s : store) (e : error) :
  fault (db s) = Some e ->
  WriteBatch s
  = (Return (Some e),
     mkStore (lk s ++ [EvLock; EvUnlock]) (db s) (batch s) (accounts s) (validators s)).
Proof.
  intros Hf. unfold WriteBatch, locked, leveldb.Write. simpl. rewrite Hf.
  unfold with_lk, with_batch, with_db. simpl. by rewrite <- app_assoc.
Qed.

(** C4: when the engine takes the write, [WriteBatch] returns no error,
    every key of the batch reads as the value last put under it, every
    other key reads as before, and the batch is empty; when the engine
    refuses the write, its error is returned and the batch and the
    engine are as they were; on an empty batch the call changes nothing. *)
Theorem WriteBatch_flushes_or_keeps `{Allocator} (s : store) :
  (fault (db s) = None ->
   eval WriteBatch s = Return None
   /\ batch (exec WriteBatch s) = []
   /\ (forall k v, pending (batch s) k = Some v ->
                   tryGet (db (exec WriteBatch s)) k = Ok (Slice v (slack v)))
   /\ (forall k, pending (batch s) k = None ->
                 tryGet (db (exec WriteBatch s)) k = tryGet (db s) k))
  /\ (forall e, fault (db s) = Some e ->
      eval WriteBatch s = Return (Some e)
      /\ batch (exec WriteBatch s) = batch s
      /\ db (exec WriteBatch s) = db s)
  /\ (fault (db s) = None -> batch s = [] ->
      eval WriteBatch s = Return None
      /\ batch (exec WriteBatch s) = []
      /\ db (exec WriteBatch s) = db s).
Proof.
  split; [|split].
  - intros Hf. unfold eval, exec. rewrite (WriteBatch_ok s Hf). simpl.
    split; [done|]. split; [done|]. split.
    + intros k v Hk. unfold tryGet, Get. simpl. by rewrite replay_lookup, Hk.
    + intros k Hk. unfold tryGet, Get. simpl. by rewrite replay_lookup, Hk, Hf.
  - intros e Hf. unfold eval, exec. by rewrite (WriteBatch_failed s e Hf).
  - intros Hf Hb. unfold eval, exec. rewrite (WriteBatch_ok s Hf). simpl.
    split; [done|]. split; [done|]. rewrite Hb. simpl.
    destruct (db s) as [m f]. simpl in *. by subst.
Qed.

(** ** Commit of a block *)

Lemma saveTxs_spec `{BlockOps} (txs : list Tx_t) (reg : list blockRegion.t)
    (i : nat) (s : store) :
  (i + List.length txs <= List.length reg)%nat ->
  saveTxs i txs reg s
  = (Return tt, with_batch s (batch s ++ tx_puts txs (drop i reg))).
Proof.
  revert i s. induction txs as [|trx txs IH]; intros i s Hlen.
  - simpl. unfold ret, tx_puts. simpl. rewrite app_nil_r. by destruct s.
  - simpl in Hlen. simpl.
    destruct (reg !! i) as [r|] eqn:Hr.
    2: { apply lookup_ge_None in Hr. lia. }
    unfold bind, modify. rewrite IH by (simpl; lia).
    rewrite (drop_S _ _ _ Hr). unfold tx_puts, txStore_saveTx, Put. simpl.
    unfold with_batch. simpl. by rewrite <- app_assoc.
Qed.

Lemma SaveBlock_spec `{CertificateOps} `{BlockOps} (blk : Block_t) (cert : Certificate_t)
    (c : bytes) (s : store) :
  cert_Encode cert = Some c ->
  SaveBlock blk cert s
  = (Return tt,
     mkStore (lk s ++ [EvLock; EvUnlock]) (db s)
       (batch s ++ block_puts (cert_Height cert) blk c) (accounts s) (validators s)).
Proof.
  intros Hc. unfold SaveBlock, locked, bind. simpl.
  rewrite saveTxs_spec.
  2: { simpl. rewrite length_map, blk_Regions_length. lia. }
  rewrite Hc. unfold modify, with_batch, with_lk, block_puts, blockStore_saveBlock, Put.
  simpl. rewrite drop_0. f_equal. f_equal; [by rewrite <- app_assoc|].
  rewrite <- !app_assoc. reflexivity.
Qed.

Lemma commit_spec `{CertificateOps} `{BlockOps} (bc : Block_t * Certificate_t)
    (c : bytes) (s : store) :
  fault (db s) = None ->
  cert_Encode bc.2 = Some c ->
  commit bc s
  = (Return tt,
     mkStore (lk s ++ [EvLock; EvUnlock; EvLock; EvUnlock])
       (mkDB (replay (batch s ++ block_puts (cert_Height bc.2) bc.1 c) (kv (db s))) None)
       [] (accounts s) (validators s)).
Proof.
  intros Hf Hc. unfold commit, bind.
  rewrite (SaveBlock_spec _ _ c s Hc).
  rewrite WriteBatch_ok by exact Hf. unfold ret. simpl.
  by rewrite <- app_assoc.
Qed.

Lemma commits_app `{CertificateOps} `{BlockOps} (l1 l2 : list (Block_t * Certificate_t))
    (s : store) :
  commits (l1 ++ l2) s
  = match commits l1 s with
    | (Return _, s') => commits l2 s'
    | (Panic, s') => (Panic, s')
    end.
Proof.
  revert s. induction l1 as [|bc l1 IH]; intros s; [reflexivity|].
  simpl. unfold bind. destruct (commit bc s) as [[[]|] s']; [apply IH|reflexivity].
Qed.

(** Commits of certificates that encode succeed, and leave the engine
    working and the batch empty. *)
Lemma commits_ok `{CertificateOps} `{BlockOps} (bcs : list (Block_t * Certificate_t))
    (s : store) :
  fault (db s) = None ->
  Forall (fun bc => is_Some (cert_Encode bc.2)) bcs ->
  exists s', commits bcs s = (Return tt, s')
             /\ fault (db s') = None
             /\ (bcs <> [] -> batch s' = []).
Proof.
  revert s. induction bcs as [|bc bcs IH]; intros s Hf Hall.
  - exists s. by split.
  - inversion Hall as [|? ? [c Hc] Hall']; subst.
    simpl. unfold bind. rewrite (commit_spec bc c s Hf Hc).
    destruct (IH (mkStore (lk s ++ [EvLock; EvUnlock; EvLock; EvUnlock])
                    (mkDB (replay (batch s ++ block_puts (cert_Height bc.2) bc.1 c)
                             (kv (db s))) None)
                    [] (accounts s) (validators s)) eq_refl Hall')
      as (s' & Es & Hf' & Hb').
    exists s'. split; [exact Es|]. split; [exact Hf'|].
    intros _. destruct bcs as [|bc' bcs]; [|by apply Hb'].
    simpl in Es. unfold ret in Es. by injection Es as <-.
Qed.

(** ** The last certificate *)

Lemma LastCertificate_eval `{Allocator} `{CertificateOps} (s : store) :
  eval LastCertificate s
  = Return (match tryGet (db s) lastInfoKey with
            | Err _ => None
            | Ok data =>
                match encoding.Uint32 (elems data) with
                | None => None
                | Some (_, r) => cert_Decode r
                end
            end).
Proof.
  unfold LastCertificate. run.
  destruct (tryGet (db s) lastInfoKey) as [data|]; [|reflexivity].
  destruct (encoding.Uint32 (elems data)) as [[v r]|]; [|reflexivity].
  by destruct (cert_Decode r).
Qed.

Lemma tryGet_lookup `{Allocator} (d : DB) (k : bytes) :
  fault d = None ->
  tryGet d k = match kv d !! k with
               | Some v => Ok (Slice v (slack v))
               | None => Err leveldb_ErrNotFound
               end.
Proof. intros Hf. unfold tryGet, Get. rewrite Hf. by destruct (kv d !! k). Qed.

(** C5: the store that [NewStore] returns has no last certificate, and
    after a run of commits, each one [SaveBlock] followed by [WriteBatch],
    the last certificate is the one passed with the last block. *)
Theorem LastCertificate_is_last_committed `{Allocator} `{CertificateOps} `{BlockOps} :
  eval LastCertificate NewStore = Return None
  /\ forall (s : store) (bcs : list (Block_t * Certificate_t))
            (blk : Block_t) (cert : Certificate_t),
      fault (db s) = None ->
      Forall (fun bc => exists c, cert_Encode bc.2 = Some c /\ cert_Decode c = Some bc.2)
        (bcs ++ [(blk, cert)]) ->
      eval (commits (bcs ++ [(blk, cert)])) s = Return tt
      /\ eval LastCertificate (exec (commits (bcs ++ [(blk, cert)])) s)
         = Return (Some cert).
Proof.
  split; [reflexivity|].
  intros s bcs blk cert Hf Hall.
  apply Forall_app in Hall as [Hbcs Hlast].
  apply Forall_singleton in Hlast as (c & Hc & Hd).
  destruct (commits_ok bcs s Hf) as (s' & Es & Hf' & _).
  { eapply Forall_impl; [exact Hbcs|]. intros bc (c' & Hc' & _). eauto. }
  unfold eval, exec. rewrite commits_app, Es. simpl. unfold bind.
  rewrite (commit_spec (blk, cert) c s' Hf' Hc). unfold ret. simpl.
  split; [reflexivity|].
  change ((LastCertificate ?s).1) with (eval LastCertificate s).
  rewrite LastCertificate_eval. simpl.
  rewrite tryGet_lookup by reflexivity. simpl.
  rewrite replay_lookup. unfold block_puts.
  rewrite !app_assoc.
  match goal with
  | |- context [pending (?b ++ [(?k, ?v)]) _] =>
      change (b ++ [(k, v)]) with (Put b k v)
  end.
  rewrite pending_snoc, bool_decide_eq_true_2 by reflexivity. simpl.
  by rewrite Hd.
Qed.

(** C6 (amended): [LastCertificate] returns nil when there is no record
    under the singleton key, it returns the same nil when the read itself
    fails, whatever is stored, and when the record that is there fails to
    decode, in its version or in its certificate.  It returns a
    certificate exactly when the engine works, the record is present and
    it decodes, and then the certificate the record decodes to; it
    returns nil exactly in the three other cases, and it never panics. *)
Theorem LastCertificate_nil_absent_or_malformed `{Allocator} `{CertificateOps} (s : store) :
  (kv (db s) !! lastInfoKey = None -> eval LastCertificate s = Return None)
  /\ (forall e, fault (db s) = Some e -> eval LastCertificate s = Return None)
  /\ (forall data,
        fault (db s) = None -> kv (db s) !! lastInfoKey = Some data ->
        (encoding.Uint32 data = None
         \/ exists v r, encoding.Uint32 data = Some (v, r) /\ cert_Decode r = None) ->
        eval LastCertificate s = Return None)
  /\ (forall data v r cert,
        fault (db s) = None -> kv (db s) !! lastInfoKey = Some data ->
        encoding.Uint32 data = Some (v, r) -> cert_Decode r = Some cert ->
        eval LastCertificate s = Return (Some cert))
  /\ (forall cert,
        eval LastCertificate s = Return (Some cert)
        <-> fault (db s) = None
            /\ exists data v r,
                 kv (db s) !! lastInfoKey = Some data
                 /\ encoding.Uint32 data = Some (v, r) /\ cert_Decode r = Some cert)
  /\ (eval LastCertificate s = Return None
      <-> (exists e, fault (db s) = Some e)
          \/ kv (db s) !! lastInfoKey = None
          \/ exists data,
               kv (db s) !! lastInfoKey = Some data
               /\ (encoding.Uint32 data = None
                   \/ exists v r, encoding.Uint32 data = Some (v, r)
                                  /\ cert_Decode r = None))
  /\ eval LastCertificate s <> Panic.
Proof.
  rewrite LastCertificate_eval. unfold tryGet, Get.
  destruct (fault (db s)) as [e|] eqn:Hf;
    [|destruct (kv (db s) !! lastInfoKey) as [data|] eqn:Hkv;
      [destruct (encoding.Uint32 data) as [[v r]|] eqn:Hv;
       [destruct (cert_Decode r) as [cert|] eqn:Hc|]|]];
    simpl; rewrite ?Hv, ?Hc; split_and!; naive_solver.
Qed.

(** ** The block table and its index *)

Lemma pending_app (b1 b2 : Batch) (k : bytes) :
  pending (b1 ++ b2) k
  = match pending b2 k with Some v => Some v | None => pending b1 k end.
Proof.
  induction b2 as [|[key value] b2 IH] using rev_ind.
  - by rewrite app_nil_r.
  - rewrite app_assoc.
    change (b2 ++ [(key, value)]) with (Put b2 key value).
    change ((b1 ++ b2) ++ [(key, value)]) with (Put (b1 ++ b2) key value).
    rewrite !pending_snoc, IH. by destruct (bool_decide (key = k)).
Qed.

Lemma pending_none (b : Batch) (k : bytes) :
  Forall (fun kv => kv.1 <> k) b -> pending b k = None.
Proof.
  induction b as [|[key value] b IH] using rev_ind; [reflexivity|].
  intros Hall. apply Forall_app in Hall as [Hb Hlast].
  rewrite Forall_singleton in Hlast. simpl in Hlast.
  change (b ++ [(key, value)]) with (Put b key value).
  rewrite pending_snoc. rewrite bool_decide_eq_false_2 by exact Hlast. by apply IH.
Qed.

Lemma tx_puts_keys `{BlockOps} (txs : list Tx_t) (reg : list blockRegion.t) (k : bytes) :
  head k <> Some Byte.x03 -> Forall (fun kv => kv.1 <> k) (tx_puts txs reg).
Proof.
  intros Hk. unfold tx_puts. apply Forall_map, Forall_forall.
  intros p _ E. simpl in E. subst k. by apply Hk.
Qed.

Lemma pending_two (k1 v1 k2 v2 k : bytes) :
  pending [(k1, v1); (k2, v2)] k
  = if bool_decide (k2 = k) then Some v2
    else if bool_decide (k1 = k) then Some v1 else None.
Proof.
  change [(k1, v1); (k2, v2)] with (Put (Put [] k1 v1) k2 v2).
  by rewrite !pending_snoc.
Qed.

Lemma pending_block_puts_height `{BlockOps} (h : Z) (blk : Block_t) (c : bytes) :
  pending (block_puts h blk c) (blockKey h) = Some (blk_Hash blk ++ blk_Bytes blk).
Proof.
  unfold block_puts. rewrite !pending_app.
  rewrite (pending_none [_]) by (rewrite Forall_singleton; discriminate).
  rewrite (pending_none (tx_puts _ _)) by (apply tx_puts_keys; discriminate).
  rewrite pending_two.
  rewrite bool_decide_eq_false_2 by discriminate.
  by rewrite bool_decide_eq_true_2.
Qed.

Lemma pending_block_puts_hash `{BlockOps} (h : Z) (blk : Block_t) (c : bytes) :
  pending (block_puts h blk c) (blockHashKey (blk_Hash blk)) = Some (encoding.PutUint32 h).
Proof.
  unfold block_puts. rewrite !pending_app.
  rewrite (pending_none [_]) by (rewrite Forall_singleton; discriminate).
  rewrite (pending_none (tx_puts _ _)) by (apply tx_puts_keys; discriminate).
  rewrite pending_two.
  by rewrite bool_decide_eq_true_2.
Qed.

Lemma pending_block_puts_other `{BlockOps} (h : Z) (blk : Block_t) (c k : bytes) :
  k <> blockKey h -> k <> blockHashKey (blk_Hash blk) ->
  head k <> Some Byte.x03 -> k <> lastInfoKey ->
  pending (block_puts h blk c) k = None.
Proof.
  intros H1 H2 H3 H4. apply pending_none. unfold block_puts.
  repeat (apply Forall_app; split); [|by apply tx_puts_keys|].
  - repeat constructor; simpl; congruence.
  - repeat constructor; simpl; congruence.
Qed.

Lemma BlockHash_of_stored `{Allocator} (s : store) (h : Z) (data : slice) :
  blockStore_block (db s) h = Ok data ->
  hash.HashSize <= len data ->
  eval (BlockHash h) s = Return (take (Z.to_nat hash.HashSize) (elems data)).
Proof.
  intros Hblk Hlen. pose proof (len_le_cap data) as Hcap.
  assert (H32 : hash.HashSize = 32) by reflexivity.
  destruct (reslice_in_range data 0 hash.HashSize) as [hs Hhs]; [lia|lia|].
  pose proof (reslice_elems _ _ _ _ Hhs ltac:(lia)) as Ehs.
  rewrite Z.sub_0_r in Ehs. change (Z.to_nat 0) with 0%nat in Ehs. rewrite drop_0 in Ehs.
  unfold BlockHash. run. rewrite Hblk, Hhs, Ehs.
  by rewrite FromBytes_take by (unfold len in Hlen; lia).
Qed.

(** What the lookups return for a height and a hash that the two tables
    hold. *)
Lemma stored_block_reads `{Allocator} (s : store) (h : Z) (hs body : bytes) :
  fault (db s) = None ->
  kv (db s) !! blockKey h = Some (hs ++ body) ->
  Z.of_nat (List.length hs) = hash.HashSize ->
  (exists rest, eval (Block h) s = Return (Ok (CommittedBlock.mk hs h rest))
                /\ elems rest = body)
  /\ eval (BlockHash h) s = Return hs.
Proof.
  intros Hf Hkv Hhs.
  assert (Hblk : blockStore_block (db s) h = Ok (Slice (hs ++ body) (slack (hs ++ body)))).
  { unfold blockStore_block. by rewrite tryGet_lookup, Hkv. }
  assert (Hlen : hash.HashSize <= len (Slice (hs ++ body) (slack (hs ++ body)))).
  { unfold len. simpl. rewrite length_app. lia. }
  assert (Htake : take (Z.to_nat hash.HashSize) (hs ++ body) = hs).
  { rewrite take_app_le by lia. apply take_ge. lia. }
  assert (Hdrop : drop (Z.to_nat hash.HashSize) (hs ++ body) = body).
  { rewrite drop_app_ge by lia. replace (_ - _)%nat with 0%nat by lia. apply drop_0. }
  split.
  - destruct (Block_of_stored s h _ Hblk Hlen) as (rest & E & Er).
    simpl in E, Er. rewrite Htake in E. rewrite Hdrop in Er. eauto.
  - rewrite (BlockHash_of_stored s h _ Hblk Hlen). simpl. by rewrite Htake.
Qed.

Lemma stored_height_reads `{Allocator} (s : store) (h : Z) (hs : hash.Hash) :
  fault (db s) = None ->
  kv (db s) !! blockHashKey hs = Some (encoding.PutUint32 h) ->
  0 <= h < 2 ^ 32 ->
  eval (BlockHeight hs) s = Return h.
Proof.
  intros Hf Hkv Hh. unfold BlockHeight. run.
  unfold blockStore_blockHeight. rewrite tryGet_lookup, Hkv by done. cbn [elems].
  rewrite <- (app_nil_r (encoding.PutUint32 h)).
  by rewrite Uint32_PutUint32.
Qed.

Lemma blockKey_inj (h1 h2 : Z) :
  0 <= h1 < 2 ^ 32 -> 0 <= h2 < 2 ^ 32 -> blockKey h1 = blockKey h2 -> h1 = h2.
Proof.
  intros H1 H2 E. unfold blockKey in E. apply app_inv_head in E.
  by apply PutUint32_inj.
Qed.

(** After a run of commits at distinct heights of blocks with distinct
    hashes, the block table holds every block under its height and the
    index holds every height under the hash of its block. *)
Lemma commits_tables `{CertificateOps} `{BlockOps} (bcs : list (Block_t * Certificate_t))
    (s : store) :
  fault (db s) = None ->
  Forall (fun bc => is_Some (cert_Encode bc.2)) bcs ->
  NoDup (map (fun bc => cert_Height bc.2) bcs) ->
  NoDup (map (fun bc => blk_Hash bc.1) bcs) ->
  forall bc, bc ∈ bcs ->
    kv (db (exec (commits bcs) s)) !! blockKey (cert_Height bc.2)
    = Some (blk_Hash bc.1 ++ blk_Bytes bc.1)
    /\ kv (db (exec (commits bcs) s)) !! blockHashKey (blk_Hash bc.1)
       = Some (encoding.PutUint32 (cert_Height bc.2)).
Proof.
  intros Hf. induction bcs as [|x bcs IH] using rev_ind; intros Henc Hh Hhs bc Hin.
  - by apply elem_of_nil in Hin.
  - apply Forall_app in Henc as [Henc Hx]. rewrite Forall_singleton in Hx.
    destruct Hx as [c Hc].
    rewrite map_app in Hh, Hhs. simpl in Hh, Hhs.
    apply NoDup_app in Hh as (Hh & Hhx & _).
    apply NoDup_app in Hhs as (Hhs & Hhsx & _).
    destruct (commits_ok bcs s Hf Henc) as (s1 & Es & Hf1 & Hb1).
    assert (E1 : exec (commits bcs) s = s1) by (unfold exec; by rewrite Es).
    specialize (IH Henc Hh Hhs). rewrite E1 in IH.
    unfold exec. rewrite commits_app, Es. simpl. unfold bind.
    rewrite (commit_spec x c s1 Hf1 Hc). unfold ret. simpl.
    rewrite !replay_lookup, !pending_app.
    apply elem_of_app in Hin as [Hin | Hin].
    + assert (Hne : bcs <> []) by (intros ->; by apply elem_of_nil in Hin).
      rewrite (Hb1 Hne). simpl.
      destruct (IH bc Hin) as [IH1 IH2].
      assert (Hhne : cert_Height bc.2 <> cert_Height x.2).
      { intros E. apply (Hhx (cert_Height bc.2)).
        - apply list_elem_of_fmap. by exists bc.
        - rewrite E. apply list_elem_of_singleton. reflexivity. }
      assert (Hhsne : blk_Hash bc.1 <> blk_Hash x.1).
      { intros E. apply (Hhsx (blk_Hash bc.1)).
        - apply list_elem_of_fmap. by exists bc.
        - rewrite E. apply list_elem_of_singleton. reflexivity. }
      rewrite !pending_block_puts_other; try discriminate.
      * done.
      * unfold blockHashKey. intros E. by apply app_inv_head in E.
      * intros E. apply Hhne.
        apply blockKey_inj; auto using cert_Height_uint32.
    + apply list_elem_of_singleton in Hin as ->.
      by rewrite pending_block_puts_height, pending_block_puts_hash.
Qed.

(** C3: after a run of commits at distinct heights of blocks with
    distinct hashes, [Block] at the height of a committed block returns
    its hash, its height and its serialization, [BlockHash] at that height
    returns the same hash, and [BlockHeight] of that hash returns the
    height. *)
Theorem committed_block_hash_and_height `{Allocator} `{CertificateOps} `{BlockOps}
    (bcs : list (Block_t * Certificate_t)) (s : store) (blk : Block_t) (cert : Certificate_t) :
  fault (db s) = None ->
  Forall (fun bc => is_Some (cert_Encode bc.2)) bcs ->
  NoDup (map (fun bc => cert_Height bc.2) bcs) ->
  NoDup (map (fun bc => blk_Hash bc.1) bcs) ->
  (blk, cert) ∈ bcs ->
  exists b,
    eval (Block (cert_Height cert)) (exec (commits bcs) s) = Return (Ok b)
    /\ CommittedBlock.BlockHash b = blk_Hash blk
    /\ CommittedBlock.Height b = cert_Height cert
    /\ elems (CommittedBlock.Data b) = blk_Bytes blk
    /\ eval (BlockHash (cert_Height cert)) (exec (commits bcs) s)
       = Return (CommittedBlock.BlockHash b)
    /\ eval (BlockHeight (CommittedBlock.BlockHash b)) (exec (commits bcs) s)
       = Return (cert_Height cert).
Proof.
  intros Hf Henc Hh Hhs Hin.
  destruct (commits_tables bcs s Hf Henc Hh Hhs _ Hin) as [Hblk Hidx]. simpl in Hblk, Hidx.
  destruct (commits_ok bcs s Hf Henc) as (s1 & Es & Hf1 & _).
  assert (E1 : exec (commits bcs) s = s1) by (unfold exec; by rewrite Es).
  rewrite E1 in *.
  destruct (stored_block_reads s1 _ _ _ Hf1 Hblk (blk_Hash_size blk))
    as [(rest & Eb & Er) Eh].
  exists (CommittedBlock.mk (blk_Hash blk) (cert_Height cert) rest). simpl.
  split; [exact Eb|]. split; [done|]. split; [done|]. split; [exact Er|].
  split; [exact Eh|].
  apply stored_height_reads; auto using cert_Height_uint32.
Qed.

(** ** The account table *)


Lemma UpdateAccount_spec `{AccountOps} (addr : Address) (acc : Account_t) (s : store) :
  UpdateAccount addr acc s
  = (Return tt,
     mkStore (lk s ++ [EvLock; EvUnlock]) (db s)
       (Put (batch s) (accountKey addr) (acc_Bytes acc))
       (if accountStore_hasAccount (db s) addr then accounts s
        else mkAccountStore (int32 (acc_total (accounts s) + 1)))
       (validators s)).
Proof.
  unfold UpdateAccount, locked, modify, accountStore_updateAccount,
    with_lk, with_batch, with_accounts.
  simpl. by rewrite <- app_assoc.
Qed.




Lemma int32_small (z : Z) : - 2 ^ 31 <= z < 2 ^ 31 -> int32 z = z.
Proof. intros Hz. unfold int32. rewrite Z.mod_small; lia. Qed.








(** ** The validator table *)

Lemma position_elem (l : list Address) (a : Address) :
  a ∈ l ->
  exists i, list_find (fun x => x = a) l = Some (i, a)
            /\ position l a = Z.of_nat i /\ l !! i = Some a /\ (i < List.length l)%nat.
Proof.
  intros Hin.
  destruct (list_find_elem_of (fun x => x = a) l a Hin eq_refl) as [[i x] Hfind].
  pose proof Hfind as (Hi & -> & _)%list_find_Some.
  exists i. unfold position. rewrite Hfind.
  split; [done|]. split; [done|]. split; [done|]. by eapply lookup_lt_Some.
Qed.

Lemma position_app_l (l1 l2 : list Address) (a : Address) :
  a ∈ l1 -> position (l1 ++ l2) a = position l1 a.
Proof.
  intros Hin. destruct (position_elem l1 a Hin) as (i & Hfind & Hpos & _).
  unfold position at 1. by rewrite (list_find_app_l _ _ _ _ _ Hfind).
Qed.

Lemma position_fresh (l1 l2 : list Address) (a : Address) :
  a ∉ l1 -> position (l1 ++ a :: l2) a = Z.of_nat (List.length l1).
Proof.
  intros Hnin. unfold position. rewrite list_find_app_r.
  - simpl. rewrite decide_True by done. simpl. f_equal.
  - apply list_find_None, Forall_forall. by intros x Hx ->.
Qed.

Lemma first_seen_extends (seen l : list Address) :
  exists extra, first_seen seen l = seen ++ extra.
Proof.
  revert seen. induction l as [|a l IH]; intros seen; simpl.
  - exists []. by rewrite app_nil_r.
  - destruct (bool_decide (a ∈ seen)); [apply IH|].
    destruct (IH (seen ++ [a])) as [extra ->]. exists (a :: extra).
    by rewrite <- app_assoc.
Qed.

Lemma first_seen_app (seen l1 l2 : list Address) :
  first_seen seen (l1 ++ l2) = first_seen (first_seen seen l1) l2.
Proof. revert seen. induction l1 as [|a l1 IH]; intros seen; simpl; [done|apply IH]. Qed.

Lemma first_seen_elem (seen l : list Address) (a : Address) :
  a ∈ first_seen seen l <-> a ∈ seen \/ a ∈ l.
Proof.
  revert seen. induction l as [|b l IH]; intros seen; simpl.
  - set_solver.
  - rewrite IH. destruct (bool_decide (b ∈ seen)) eqn:Hb.
    + apply bool_decide_eq_true_1 in Hb. set_solver.
    + set_solver.
Qed.

Lemma first_seen_NoDup (seen l : list Address) :
  NoDup seen -> NoDup (first_seen seen l).
Proof.
  revert seen. induction l as [|b l IH]; intros seen Hnd; simpl; [done|].
  destruct (bool_decide (b ∈ seen)) eqn:Hb; apply IH; [done|].
  apply bool_decide_eq_false_1 in Hb.
  apply NoDup_app. split; [done|]. split; [|apply NoDup_singleton].
  intros x Hx ->%list_elem_of_singleton. done.
Qed.

Lemma first_seen_size (l : list Address) :
  List.length (first_seen [] l) = size (list_to_set l : gset bytes).
Proof.
  rewrite <- (size_list_to_set (C := gset bytes) (first_seen [] l))
    by (apply first_seen_NoDup, NoDup_nil_2).
  f_equal. apply set_eq. intros a.
  rewrite !elem_of_list_to_set, first_seen_elem. set_solver.
Qed.

Lemma UpdateValidator_spec `{ValidatorOps} (val : Validator_t) (s : store) :
  UpdateValidator val s
  = (Return tt,
     let '(v, b) := validatorStore_updateValidator (validators s) (batch s) val in
     mkStore (lk s ++ [EvLock; EvUnlock]) (db s) b (accounts s) v).
Proof.
  unfold UpdateValidator, locked, modify, with_lk, with_batch, with_validators. simpl.
  destruct (validatorStore_updateValidator (validators s) (batch s) val) as [v b].
  simpl. by rewrite <- app_assoc.
Qed.

(** Along a run of updates the list of addresses grows by the addresses
    seen for the first time, the count is its length, and the record of
    every call carries the position of its address in the list. *)
Lemma validator_calls_spec `{ValidatorOps} (vals : list Validator_t) (s : store) :
  let final := first_seen (val_addresses (validators s)) (map val_Address vals) in
  NoDup (val_addresses (validators s)) ->
  val_total (validators s) = Z.of_nat (List.length (val_addresses (validators s))) ->
  Z.of_nat (List.length final) < 2 ^ 31 ->
  exists s',
    validator_calls vals s = (Return tt, s')
    /\ val_addresses (validators s') = final
    /\ val_total (validators s') = Z.of_nat (List.length final)
    /\ batch s'
       = batch s
         ++ map (fun val =>
                   (validatorKey (val_Address val),
                    val_Bytes (val_withNumber (position final (val_Address val)) val)))
              vals.
Proof.
  revert s. induction vals as [|val vals IH]; intros s final Hnd Htot Hbound.
  - exists s. simpl. by rewrite app_nil_r.
  - subst final. simpl in *.
    destruct (first_seen_extends
                (if bool_decide (val_Address val ∈ val_addresses (validators s))
                 then val_addresses (validators s)
                 else val_addresses (validators s) ++ [val_Address val])
                (map val_Address vals)) as [extra Hext].
    simpl. unfold bind. rewrite UpdateValidator_spec.
    unfold validatorStore_updateValidator.
    destruct (decide (val_Address val ∈ val_addresses (validators s))) as [Hin|Hnin].
    + rewrite bool_decide_eq_true_2 in Hbound, Hext |- * by done.
      destruct (position_elem _ _ Hin) as (i & Hfind & Hpos & _ & Hi).
      rewrite Hfind.
      edestruct (IH (mkStore (lk s ++ [EvLock; EvUnlock]) (db s)
                       (Put (batch s) (validatorKey (val_Address val))
                          (val_Bytes (val_withNumber (int32 (Z.of_nat i)) val)))
                       (accounts s) (validators s)))
        as (s' & Erun & Ha & Ht & Hb); [done|done|done|].
      exists s'. split; [exact Erun|]. split; [exact Ha|]. split; [exact Ht|].
      rewrite Hb. simpl. unfold Put. rewrite <- app_assoc. simpl.
      assert (Enum : position (first_seen (val_addresses (validators s))
                                 (map val_Address vals)) (val_Address val)
                     = int32 (Z.of_nat i)).
      { rewrite Hext, position_app_l, Hpos by done.
        rewrite Hext, length_app in Hbound. symmetry. apply int32_small. lia. }
      by rewrite Enum.
    + rewrite bool_decide_eq_false_2 in Hbound, Hext |- * by done.
      replace (list_find (fun a => a = val_Address val) (val_addresses (validators s)))
        with (@None (nat * Address))
        by (symmetry; apply list_find_None, Forall_forall; by intros x Hx ->).
      rewrite Hext, !length_app in Hbound. simpl in Hbound.
      edestruct (IH (mkStore (lk s ++ [EvLock; EvUnlock]) (db s)
                       (Put (batch s) (validatorKey (val_Address val))
                          (val_Bytes (val_withNumber
                             (int32 (Z.of_nat (List.length (val_addresses (validators s)))))
                             val)))
                       (accounts s)
                       (mkValidatorStore (int32 (val_total (validators s) + 1))
                          (val_addresses (validators s) ++ [val_Address val]))))
        as (s' & Erun & Ha & Ht & Hb); simpl.
      * apply NoDup_app. split; [done|]. split; [|apply NoDup_singleton].
        intros x Hx ->%list_elem_of_singleton. done.
      * rewrite Htot, length_app. simpl. rewrite int32_small by lia. lia.
      * rewrite Hext, !length_app. simpl. lia.
      * exists s'. split; [exact Erun|]. split; [exact Ha|]. split; [exact Ht|].
        rewrite Hb. simpl. unfold Put. rewrite <- app_assoc. simpl.
        assert (Enum : position (first_seen (val_addresses (validators s)
                                               ++ [val_Address val])
                                   (map val_Address vals)) (val_Address val)
                       = int32 (Z.of_nat (List.length (val_addresses (validators s))))).
        { rewrite Hext, <- app_assoc. simpl.
          rewrite position_fresh by done. symmetry. apply int32_small. lia. }
        by rewrite Enum.
Qed.

(** C8: along a run of [UpdateValidator] on a new store, the record that
    a call puts in the batch carries a number that depends on the address
    alone, its position among the addresses in the order of their first
    occurrence: a validator inserted for the first time gets a number
    above those of all calls before it, two addresses never share a
    number, the number of an address stays what it is however the run
    goes on, and [TotalValidators] is the number of distinct addresses. *)
Theorem validator_numbers_increase_and_stay `{ValidatorOps} (vals : list Validator_t) :
  let addrs := map val_Address vals in
  let number := position (first_seen [] addrs) in
  Z.of_nat (size (list_to_set addrs : gset bytes)) < 2 ^ 31 ->
  eval (validator_calls vals) NewStore = Return tt
  /\ batch (exec (validator_calls vals) NewStore)
     = map (fun val =>
              (validatorKey (val_Address val),
               val_Bytes (val_withNumber (number (val_Address val)) val)))
         vals
  /\ (forall i j vi vj,
        vals !! i = Some vi -> vals !! j = Some vj -> (i < j)%nat ->
        val_Address vj ∉ map val_Address (take j vals) ->
        number (val_Address vi) < number (val_Address vj))
  /\ (forall a b, a ∈ addrs -> b ∈ addrs -> number a = number b -> a = b)
  /\ (forall a, a ∈ addrs -> 0 <= number a < 2 ^ 31)
  /\ (forall more a,
        a ∈ addrs ->
        position (first_seen [] (map val_Address (vals ++ more))) a = number a)
  /\ eval TotalValidators (exec (validator_calls vals) NewStore)
     = Return (Z.of_nat (size (list_to_set addrs : gset bytes)))
  /\ eval ValidatorAddresses (exec (validator_calls vals) NewStore)
     = Return (first_seen [] addrs).
Proof.
  intros addrs number Hbound.
  rewrite <- first_seen_size in Hbound |- *.
  destruct (validator_calls_spec vals NewStore) as (s' & Erun & Ha & Ht & Hb);
    [apply NoDup_nil_2|done|exact Hbound|].
  simpl in Ha, Ht, Hb.
  unfold eval at 1, exec. rewrite Erun. simpl.
  split; [done|]. split; [exact Hb|]. split; [|split; [|split; [|split; [|split]]]].
  - intros i j vi vj Hi Hj Hlt Hfirst. unfold number, addrs.
    rewrite <- (take_drop_middle vals j vj Hj), map_app at 1 2. simpl.
    rewrite first_seen_app. simpl.
    set (G := first_seen [] (map val_Address (take j vals))).
    assert (HG : val_Address vj ∉ G).
    { unfold G. rewrite first_seen_elem. set_solver. }
    rewrite bool_decide_eq_false_2 by done.
    destruct (first_seen_extends (G ++ [val_Address vj])
                (map val_Address (drop (S j) vals))) as [extra ->].
    rewrite <- app_assoc. simpl.
    assert (Hvi : val_Address vi ∈ G).
    { unfold G. rewrite first_seen_elem. right.
      apply list_elem_of_fmap. exists vi. split; [done|].
      apply list_elem_of_lookup. exists i. by rewrite lookup_take_lt. }
    rewrite position_fresh, position_app_l by done.
    destruct (position_elem G _ Hvi) as (k & _ & -> & _ & Hk). lia.
  - intros a b Hin_a Hin_b E. unfold number in E.
    destruct (position_elem (first_seen [] addrs) a) as (i & _ & Ei & Hi & _);
      [rewrite first_seen_elem; by right|].
    destruct (position_elem (first_seen [] addrs) b) as (j & _ & Ej & Hj & _);
      [rewrite first_seen_elem; by right|].
    assert (i = j) by lia. subst j. congruence.
  - intros a Hin. unfold number.
    destruct (position_elem (first_seen [] addrs) a) as (i & _ & -> & _ & Hi);
      [rewrite first_seen_elem; by right|]. lia.
  - intros more a Hin. unfold number. rewrite map_app, first_seen_app.
    destruct (first_seen_extends (first_seen [] (map val_Address vals))
                (map val_Address more)) as [extra ->].
    apply position_app_l. rewrite first_seen_elem. by right.
  - unfold TotalValidators. run. by rewrite Ht.
  - unfold ValidatorAddresses. run. by rewrite Ha.
Qed.

(** ** The lock *)

(** Every method that brackets its body with the lock leaves the two
    events of the bracket in the history of the lock. *)
Lemma locked_brackets {A} (body : M A) (s : store) :
  (forall s0, lk (body s0).2 = lk s0) ->
  lk (exec (locked body) s) = lk s ++ [EvLock; EvUnlock].
Proof.
  intros Hbody. unfold exec, locked.
  specialize (Hbody (with_lk s (lk s ++ [EvLock]))).
  destruct (body (with_lk s (lk s ++ [EvLock]))) as [r s']. simpl in *.
  rewrite Hbody. by rewrite <- app_assoc.
Qed.

Lemma saveTxs_lk `{BlockOps} (txs : list Tx_t) (reg : list blockRegion.t)
    (i : nat) (s : store) :
  lk (saveTxs i txs reg s).2 = lk s.
Proof.
  revert i s. induction txs as [|trx txs IH]; intros i s; simpl; [done|].
  destruct (reg !! i); [|done]. unfold bind, modify. by rewrite IH.
Qed.

Ltac lock_free_body :=
  let s0 := fresh "s" in
  intros s0; unfold bind, gets, modify, ret, panic; simpl;
  repeat (match goal with
          | |- context [match ?x with _ => _ end] => destruct x; simpl
          | |- context [if ?x then _ else _] => destruct x; simpl
          end);
  try reflexivity.

(** The other methods embedded here bracket their body with the
    exclusive lock, and [ValidatorAddresses] with the shared one. *)
Lemma methods_take_the_lock `{Allocator} `{CertificateOps} `{BlockOps}
    `{AccountOps} `{ValidatorOps} (s : store) :
  lk (exec Close s) = lk s ++ [EvLock; EvUnlock]
  /\ (forall blk cert, lk (exec (SaveBlock blk cert) s) = lk s ++ [EvLock; EvUnlock])
  /\ (forall h, lk (exec (Block h) s) = lk s ++ [EvLock; EvUnlock])
  /\ (forall h, lk (exec (BlockHeight h) s) = lk s ++ [EvLock; EvUnlock])
  /\ (forall h, lk (exec (BlockHash h) s) = lk s ++ [EvLock; EvUnlock])
  /\ (forall id, lk (exec (Transaction id) s) = lk s ++ [EvLock; EvUnlock])
  /\ (forall id, lk (exec (AnyRecentTransaction id) s) = lk s ++ [EvLock; EvUnlock])
  /\ (forall addr, lk (exec (HasAccount addr) s) = lk s ++ [EvLock; EvUnlock])
  /\ (forall addr, lk (exec (Account addr) s) = lk s ++ [EvLock; EvUnlock])
  /\ lk (exec TotalAccounts s) = lk s ++ [EvLock; EvUnlock]
  /\ (forall addr acc, lk (exec (UpdateAccount addr acc) s) = lk s ++ [EvLock; EvUnlock])
  /\ (forall addr, lk (exec (HasValidator addr) s) = lk s ++ [EvLock; EvUnlock])
  /\ lk (exec ValidatorAddresses s) = lk s ++ [EvRLock; EvRUnlock]
  /\ lk (exec TotalValidators s) = lk s ++ [EvLock; EvUnlock]
  /\ (forall val, lk (exec (UpdateValidator val) s) = lk s ++ [EvLock; EvUnlock])
  /\ lk (exec LastCertificate s) = lk s ++ [EvLock; EvUnlock]
  /\ lk (exec WriteBatch s) = lk s ++ [EvLock; EvUnlock].
Proof.
  repeat split; intros.
  - apply locked_brackets. intros s0. by destruct (leveldb.Close (db s0)).
  - apply locked_brackets. intros s0. unfold bind. simpl.
    destruct (saveTxs _ _ _ _) as [[[]|] s1] eqn:E; simpl.
    + pose proof (saveTxs_lk (blk_Transactions blk)
                    (map (fun r => blockRegion.mk (cert_Height cert) r.1 r.2) (blk_Regions blk))
                    0 (with_batch s0 (Put (Put (batch s0) (blockKey (cert_Height cert))
                         (blk_Hash blk ++ blk_Bytes blk))
                         (blockHashKey (blk_Hash blk)) (encoding.PutUint32 (cert_Height cert)))))
        as Hlk.
      unfold blockStore_saveBlock in E. simpl in E. rewrite E in Hlk. simpl in Hlk.
      by destruct (cert_Encode cert).
    + pose proof (saveTxs_lk (blk_Transactions blk)
                    (map (fun r => blockRegion.mk (cert_Height cert) r.1 r.2) (blk_Regions blk))
                    0 (with_batch s0 (Put (Put (batch s0) (blockKey (cert_Height cert))
                         (blk_Hash blk ++ blk_Bytes blk))
                         (blockHashKey (blk_Hash blk)) (encoding.PutUint32 (cert_Height cert)))))
        as Hlk.
      unfold blockStore_saveBlock in E. simpl in E. by rewrite E in Hlk.
  - apply locked_brackets. lock_free_body.
  - apply locked_brackets. lock_free_body.
  - apply locked_brackets. lock_free_body.
  - apply locked_brackets. lock_free_body.
  - apply locked_brackets. lock_free_body.
  - apply locked_brackets. lock_free_body.
  - apply locked_brackets. lock_free_body.
  - apply locked_brackets. lock_free_body.
  - unfold exec. by rewrite UpdateAccount_spec.
  - apply locked_brackets. lock_free_body.
  - unfold exec, ValidatorAddresses, rlocked, gets. simpl. by rewrite <- app_assoc.
  - apply locked_brackets. lock_free_body.
  - unfold exec. rewrite UpdateValidator_spec.
    by destruct (validatorStore_updateValidator _ _ _).
  - apply locked_brackets. lock_free_body.
  - apply locked_brackets. intros s0. by destruct (leveldb.Write (db s0) (batch s0)) as [d [e|]].
Qed.

(** C9: [PublicKey] reads the engine and leaves the store, and with it
    the history of the lock, as it found it: it takes no lock. *)
Theorem PublicKey_takes_no_lock `{Allocator} `{PublicKeyOps} (addr : Address) (s : store) :
  exec (PublicKey addr) s = s
  /\ lk (exec (PublicKey addr) s) = lk s
  /\ eval (PublicKey addr) s
     = Return (match tryGet (db s) (publicKeyKey addr) with
               | Err err => Err err
               | Ok bs => PublicKeyFromBytes (elems bs)
               end).
Proof.
  unfold PublicKey. run.
  destruct (tryGet (db s) (publicKeyKey addr)) as [bs|]; [|done].
  by destruct (PublicKeyFromBytes (elems bs)).
Qed.

(** ** Iteration in key order *)

Lemma bytes_le_total (a b : bytes) : bytes_le a b = true \/ bytes_le b a = true.
Proof.
  revert b. induction a as [|x a IH]; intros [|y b]; simpl; auto.
  destruct (Byte.to_N x <? Byte.to_N y)%N eqn:Hxy; [auto|].
  destruct (Byte.to_N y <? Byte.to_N x)%N eqn:Hyx; [auto|].
  apply IH.
Qed.

#[local] Instance entry_le_total : Total entry_le.
Proof. intros x y. apply bytes_le_total. Qed.

Lemma NewIterator_sorted (d : DB) (prefix : bytes) :
  Sorted entry_le (NewIterator d prefix).
Proof.
  unfold NewIterator. destruct (fault d); [constructor|].
  apply Sorted_merge_sort. apply _.
Qed.

(** ** Transactions of committed blocks *)

Lemma txStore_tx_stored `{Allocator} (d : DB) (id : hash.Hash) (h o l : Z) :
  fault d = None ->
  kv d !! txKey id
  = Some (encoding.PutUint32 h ++ encoding.PutUint32 o ++ encoding.PutUint32 l) ->
  0 <= h < 2 ^ 32 -> 0 <= o < 2 ^ 32 -> 0 <= l < 2 ^ 32 ->
  txStore_tx d id = Ok (blockRegion.mk h o l).
Proof.
  intros Hf Hkv Hh Ho Hl. unfold txStore_tx.
  rewrite tryGet_lookup, Hkv by done. cbn [elems].
  rewrite !Uint32_PutUint32 by done.
  rewrite <- (app_nil_r (encoding.PutUint32 l)).
  by rewrite Uint32_PutUint32.
Qed.

Lemma pending_NoDup (b : Batch) (k v : bytes) :
  NoDup (b.*1) -> (k, v) ∈ b -> pending b k = Some v.
Proof.
  induction b as [|[key value] b IH] using rev_ind; intros Hnd Hin.
  - by apply elem_of_nil in Hin.
  - rewrite fmap_app in Hnd. simpl in Hnd.
    apply NoDup_app in Hnd as (Hnd & Hdisj & _).
    change (b ++ [(key, value)]) with (Put b key value).
    rewrite pending_snoc.
    apply elem_of_app in Hin as [Hin|Hin].
    + rewrite bool_decide_eq_false_2; [by apply IH|].
      intros ->. apply (Hdisj k); [|apply list_elem_of_singleton; reflexivity].
      apply list_elem_of_fmap. by exists (k, v).
    + apply list_elem_of_singleton in Hin. injection Hin as -> ->.
      by rewrite bool_decide_eq_true_2.
Qed.

#[local] Instance txKey_inj : Inj (=) (=) txKey.
Proof. intros a b E. unfold txKey in E. by apply app_inv_head in E. Qed.

Lemma tx_puts_fst `{BlockOps} (txs : list Tx_t) (reg : list blockRegion.t) :
  List.length txs = List.length reg ->
  (tx_puts txs reg).*1 = txKey <$> (tx_ID <$> txs).
Proof.
  intros Hlen. unfold tx_puts.
  rewrite <- (fst_zip txs reg) at 2 by lia.
  rewrite <- !list_fmap_compose. reflexivity.
Qed.

Lemma pending_block_puts_tx `{BlockOps} (h : Z) (blk : Block_t) (c : bytes)
    (i : nat) (t : Tx_t) (o l : Z) :
  NoDup (tx_ID <$> blk_Transactions blk) ->
  blk_Transactions blk !! i = Some t ->
  blk_Regions blk !! i = Some (o, l) ->
  pending (block_puts h blk c) (txKey (tx_ID t))
  = Some (encoding.PutUint32 h ++ encoding.PutUint32 o ++ encoding.PutUint32 l).
Proof.
  intros Hnd Ht Hr. unfold block_puts. rewrite !pending_app.
  rewrite (pending_none [_]) by (rewrite Forall_singleton; discriminate).
  erewrite pending_NoDup; [reflexivity| |].
  - rewrite tx_puts_fst by (by rewrite length_map, blk_Regions_length).
    by apply NoDup_fmap_2; [apply _|].
  - unfold tx_puts. apply list_elem_of_fmap.
    exists (t, blockRegion.mk h o l). split; [reflexivity|].
    apply list_elem_of_lookup. exists i. apply lookup_zip_Some.
    split; [done|]. by rewrite list_lookup_fmap, Hr.
Qed.

Lemma pending_block_puts_tx_other `{BlockOps} (h : Z) (blk : Block_t) (c : bytes)
    (id : hash.Hash) :
  id ∉ tx_ID <$> blk_Transactions blk ->
  pending (block_puts h blk c) (txKey id) = None.
Proof.
  intros Hnin. apply pending_none. unfold block_puts.
  repeat (apply Forall_app; split).
  - repeat constructor; simpl; discriminate.
  - unfold tx_puts. apply Forall_map, Forall_forall.
    intros [t r] Hin E. simpl in E. apply txKey_inj in E. subst id.
    apply Hnin, list_elem_of_fmap. exists t. split; [done|].
    by apply elem_of_zip_l in Hin.
  - repeat constructor; simpl; discriminate.
Qed.

Lemma committed_ids_app `{CertificateOps} `{BlockOps}
    (l1 l2 : list (Block_t * Certificate_t)) :
  committed_ids (l1 ++ l2) = committed_ids l1 ++ committed_ids l2.
Proof. induction l1 as [|bc l1 IH]; simpl; [done|]. by rewrite IH, app_assoc. Qed.

Lemma committed_ids_elem `{CertificateOps} `{BlockOps}
    (bcs : list (Block_t * Certificate_t)) (bc : Block_t * Certificate_t) (t : Tx_t) :
  bc ∈ bcs -> t ∈ blk_Transactions bc.1 -> tx_ID t ∈ committed_ids bcs.
Proof.
  induction bcs as [|x bcs IH]; intros Hin Ht; [by apply elem_of_nil in Hin|].
  simpl. apply elem_of_app. apply elem_of_cons in Hin as [->|Hin].
  - left. apply list_elem_of_fmap. by exists t.
  - right. by apply IH.
Qed.

(** After a run of commits of blocks whose transactions have distinct
    ids, the transaction table holds the position record of every one of
    them. *)
Lemma commits_positions `{CertificateOps} `{BlockOps}
    (bcs : list (Block_t * Certificate_t)) (s : store) :
  fault (db s) = None ->
  Forall (fun bc => is_Some (cert_Encode bc.2)) bcs ->
  NoDup (committed_ids bcs) ->
  forall bc i t o l,
    bc ∈ bcs ->
    blk_Transactions bc.1 !! i = Some t ->
    blk_Regions bc.1 !! i = Some (o, l) ->
    kv (db (exec (commits bcs) s)) !! txKey (tx_ID t)
    = Some (encoding.PutUint32 (cert_Height bc.2) ++ encoding.PutUint32 o
              ++ encoding.PutUint32 l).
Proof.
  intros Hf. induction bcs as [|x bcs IH] using rev_ind;
    intros Henc Hids bc i t o l Hin Ht Hr.
  - by apply elem_of_nil in Hin.
  - apply Forall_app in Henc as [Henc Hx]. rewrite Forall_singleton in Hx.
    destruct Hx as [c Hc].
    rewrite committed_ids_app in Hids. simpl in Hids. rewrite app_nil_r in Hids.
    apply NoDup_app in Hids as (Hids & Hdisj & Hidx).
    destruct (commits_ok bcs s Hf Henc) as (s1 & Es & Hf1 & Hb1).
    assert (E1 : exec (commits bcs) s = s1) by (unfold exec; by rewrite Es).
    specialize (IH Henc Hids). rewrite E1 in IH.
    unfold exec. rewrite commits_app, Es. simpl. unfold bind.
    rewrite (commit_spec x c s1 Hf1 Hc). unfold ret. simpl.
    rewrite replay_lookup, pending_app.
    apply elem_of_app in Hin as [Hin | Hin].
    + assert (Hne : bcs <> []) by (intros ->; by apply elem_of_nil in Hin).
      rewrite (Hb1 Hne). simpl.
      rewrite pending_block_puts_tx_other.
      * by apply (IH bc i).
      * apply Hdisj. apply (committed_ids_elem bcs bc); [done|].
        apply list_elem_of_lookup. eauto.
    + apply list_elem_of_singleton in Hin as ->.
      by rewrite (pending_block_puts_tx _ _ _ i t o l).
Qed.

(** C2 (amended): after a run of commits at distinct heights, of blocks
    with distinct hashes whose transactions have distinct ids, the bytes
    returned for a transaction of a committed block are the bytes of its
    recorded range in the stored value of the block, the hash included:
    in the data of the block as [Block] returns them, they start 32
    bytes before the recorded offset.  A lookup of an id that has no
    position record returns the absence of the key. *)
Theorem committed_transaction_bytes `{Allocator} `{CertificateOps} `{BlockOps}
    (bcs : list (Block_t * Certificate_t)) (s : store) :
  fault (db s) = None ->
  Forall (fun bc => is_Some (cert_Encode bc.2)) bcs ->
  NoDup (map (fun bc => cert_Height bc.2) bcs) ->
  NoDup (map (fun bc => blk_Hash bc.1) bcs) ->
  NoDup (committed_ids bcs) ->
  (forall blk cert i t o l,
      (blk, cert) ∈ bcs ->
      blk_Transactions blk !! i = Some t ->
      blk_Regions blk !! i = Some (o, l) ->
      0 <= o -> 0 <= l ->
      o + l <= Z.of_nat (List.length (blk_Hash blk ++ blk_Bytes blk)) < 2 ^ 32 ->
      5 <= Z.of_nat (List.length (blk_Bytes blk)) ->
      exists tx,
        eval (Transaction (tx_ID t)) (exec (commits bcs) s) = Return (Ok tx)
        /\ CommittedTx.TxID tx = tx_ID t
        /\ CommittedTx.Height tx = cert_Height cert
        /\ elems (CommittedTx.Data tx)
           = take (Z.to_nat l) (drop (Z.to_nat o) (blk_Hash blk ++ blk_Bytes blk))
        /\ (hash.HashSize <= o ->
            exists b,
              eval (Block (cert_Height cert)) (exec (commits bcs) s) = Return (Ok b)
              /\ elems (CommittedBlock.Data b) = blk_Bytes blk
              /\ elems (CommittedTx.Data tx)
                 = take (Z.to_nat l)
                     (drop (Z.to_nat (o - hash.HashSize)) (elems (CommittedBlock.Data b)))))
  /\ (forall id,
        kv (db (exec (commits bcs) s)) !! txKey id = None ->
        eval (Transaction id) (exec (commits bcs) s) = Return (Err leveldb_ErrNotFound)).
Proof.
  intros Hf Henc Hh Hhs Hids.
  destruct (commits_ok bcs s Hf Henc) as (s1 & Es & Hf1 & _).
  assert (E1 : exec (commits bcs) s = s1) by (unfold exec; by rewrite Es).
  split.
  - intros blk cert i t o l Hin Ht Hr Ho Hl Hrange Hbody.
    pose proof (commits_positions bcs s Hf Henc Hids _ i t o l Hin Ht Hr) as Hpos.
    destruct (commits_tables bcs s Hf Henc Hh Hhs _ Hin) as [Hblk _].
    simpl in Hpos, Hblk. rewrite E1 in *.
    pose proof (cert_Height_uint32 cert) as Hc.
    assert (Htx : txStore_tx (db s1) (tx_ID t) = Ok (blockRegion.mk (cert_Height cert) o l))
      by (apply txStore_tx_stored; auto; lia).
    set (data := Slice (blk_Hash blk ++ blk_Bytes blk) (slack (blk_Hash blk ++ blk_Bytes blk))).
    assert (Hdata : blockStore_block (db s1) (cert_Height cert) = Ok data).
    { unfold blockStore_block. by rewrite tryGet_lookup, Hblk. }
    pose proof (blk_Hash_size blk) as Hsize.
    assert (Hlen : len data = Z.of_nat (List.length (blk_Hash blk ++ blk_Bytes blk)))
      by reflexivity.
    destruct (proj1 (Transaction_of_stored_record s1 (tx_ID t))
                (blockRegion.mk (cert_Height cert) o l) data)
      as (tx & Etx & Hid & Hheight & Ed & Hb); simpl; try done; try lia.
    { pose proof (len_le_cap data). rewrite length_app in Hlen.
      unfold hash.HashSize in *. lia. }
    exists tx. split; [exact Etx|]. split; [exact Hid|]. split; [exact Hheight|].
    split; [exact Ed|].
    intros Ho32. destruct (Hb Ho32) as (b & Eb & Edb).
    destruct (stored_block_reads s1 _ _ _ Hf1 Hblk Hsize) as [(rest & Eb' & Er) _].
    simpl in Eb. rewrite Eb' in Eb. injection Eb as <-.
    eexists. split; [exact Eb'|]. split; [exact Er|exact Edb].
  - intros id Hnone. rewrite E1 in *.
    by apply (proj2 (Transaction_of_stored_record s1 id)).
Qed.

(** ** More on the lookups of transactions and blocks *)

Lemma reslice_Some_inv (s s' : slice) (lo hi : Z) :
  reslice s lo hi = Some s' ->
  0 <= lo /\ lo <= hi /\ hi <= cap s
  /\ elems s' = take (Z.to_nat (hi - lo)) (drop (Z.to_nat lo) (elems s ++ spare s)).
Proof.
  unfold reslice. destruct (_ && _) eqn:Hc; [|discriminate].
  apply andb_prop in Hc as [Hc H3]. apply andb_prop in Hc as [H1 H2].
  apply Z.leb_le in H1, H2, H3. intros [= <-]. simpl. auto.
Qed.

Lemma reslice_length (s s' : slice) (lo hi : Z) :
  reslice s lo hi = Some s' -> Z.of_nat (List.length (elems s')) = hi - lo.
Proof.
  intros Hr. destruct (reslice_Some_inv _ _ _ _ Hr) as (H0 & Hlh & Hc & ->).
  rewrite length_take, length_drop. unfold cap in Hc. lia.
Qed.

Lemma reslice_None_inv (s : slice) (lo hi : Z) :
  reslice s lo hi = None -> lo < 0 \/ hi < lo \/ cap s < hi.
Proof.
  intros Hr. destruct (decide (0 <= lo <= hi /\ hi <= cap s)) as [[H1 H2]|Hn]; [|lia].
  destruct (reslice_in_range s lo hi H1 H2) as [s' Hs]. congruence.
Qed.

Lemma Transaction_eval `{Allocator} (s : store) (id : hash.Hash) :
  eval (Transaction id) s
  = match txStore_tx (db s) id with
    | Err err => Return (Err err)
    | Ok pos =>
        match blockStore_block (db s) (blockRegion.height pos) with
        | Err err => Return (Err err)
        | Ok data =>
            if bool_decide (uint32 (blockRegion.offset pos + blockRegion.length pos)
                            > uint32 (len data))
            then Return (Err ErrBadOffset)
            else
              match reslice data (hash.HashSize + 1) (hash.HashSize + 5) with
              | None => Panic
              | Some t =>
                  match reslice data (blockRegion.offset pos)
                          (uint32 (blockRegion.offset pos + blockRegion.length pos)) with
                  | None => Panic
                  | Some txData =>
                      Return (Ok (CommittedTx.mk id (blockRegion.height pos)
                                    (encoding.SliceToUint32 (elems t)) txData))
                  end
              end
        end
    end.
Proof.
  unfold Transaction. run.
  destruct (txStore_tx (db s) id) as [pos|]; [|reflexivity].
  destruct (blockStore_block (db s) (blockRegion.height pos)) as [data|]; [|reflexivity].
  destruct (bool_decide _); [reflexivity|].
  destruct (reslice data _ _); [|reflexivity].
  by destruct (reslice data _ _).
Qed.

(** X2: a transaction that [Transaction] returns has a position record
    and a stored block, its range lies within the stored value, and its
    data are the bytes of that range, all of them. *)
Theorem Transaction_ok_is_exact `{Allocator} (s : store) (id : hash.Hash)
    (tx : CommittedTx.t) :
  eval (Transaction id) s = Return (Ok tx) ->
  exists pos data,
    txStore_tx (db s) id = Ok pos
    /\ blockStore_block (db s) (blockRegion.height pos) = Ok data
    /\ CommittedTx.TxID tx = id
    /\ CommittedTx.Height tx = blockRegion.height pos
    /\ blockRegion.offset pos + blockRegion.length pos <= len data
    /\ elems (CommittedTx.Data tx)
       = take (Z.to_nat (blockRegion.length pos))
           (drop (Z.to_nat (blockRegion.offset pos)) (elems data))
    /\ Z.of_nat (List.length (elems (CommittedTx.Data tx))) = blockRegion.length pos.
Proof.
  rewrite Transaction_eval.
  destruct (txStore_tx (db s) id) as [pos|] eqn:Htx; [|discriminate].
  destruct (blockStore_block (db s) (blockRegion.height pos)) as [data|] eqn:Hblk;
    [|discriminate].
  destruct (bool_decide _) eqn:Hg; [discriminate|].
  apply bool_decide_eq_false_1 in Hg.
  destruct (reslice data (hash.HashSize + 1) _) as [t|]; [|discriminate].
  destruct (reslice data (blockRegion.offset pos) _) as [txData|] eqn:Hd; [|discriminate].
  intros [= <-]. simpl.
  destruct (txStore_tx_range _ _ _ Htx) as (_ & Ho & Hl).
  destruct (reslice_Some_inv _ _ _ _ Hd) as (_ & Hle & _ & _).
  pose proof (uint32_len_le data) as Hlen.
  assert (Hend : uint32 (blockRegion.offset pos + blockRegion.length pos)
                 = blockRegion.offset pos + blockRegion.length pos).
  { destruct (decide (blockRegion.offset pos + blockRegion.length pos < 2 ^ 32)) as [?|Hge].
    - unfold uint32. apply Z.mod_small. lia.
    - exfalso.
      assert (uint32 (blockRegion.offset pos + blockRegion.length pos)
              = blockRegion.offset pos + blockRegion.length pos - 2 ^ 32).
      { unfold uint32. rewrite <- (Z.mod_add _ (-1) (2 ^ 32)) by lia.
        rewrite Z.mod_small; lia. }
      lia. }
  rewrite Hend in *.
  exists pos, data. split; [done|]. split; [done|]. split; [done|]. split; [done|].
  split; [lia|].
  pose proof (reslice_elems _ _ _ _ Hd ltac:(lia)) as Ed.
  pose proof (reslice_length _ _ _ _ Hd) as Hn.
  replace (blockRegion.offset pos + blockRegion.length pos - blockRegion.offset pos)
    with (blockRegion.length pos) in * by lia.
  split; [exact Ed|exact Hn].
Qed.

(** X3: the error of a failed lookup is what [Transaction] returns: the
    one of the position record, and the one of the block of a position
    record that points to a block the engine does not return. *)
Theorem Transaction_passes_lookup_errors `{Allocator} (s : store) (id : hash.Hash)
    (e : error) :
  (txStore_tx (db s) id = Err e -> eval (Transaction id) s = Return (Err e))
  /\ (forall pos,
        txStore_tx (db s) id = Ok pos ->
        blockStore_block (db s) (blockRegion.height pos) = Err e ->
        eval (Transaction id) s = Return (Err e)).
Proof.
  split.
  - intros Htx. by rewrite Transaction_eval, Htx.
  - intros pos Htx Hblk. by rewrite Transaction_eval, Htx, Hblk.
Qed.

(** X4: when the stored value of the block has no capacity for the four
    bytes of the time stamp, a record that passes the guard makes the
    call panic. *)
Theorem Transaction_short_block_panics `{Allocator} (s : store) (id : hash.Hash)
    (pos : blockRegion.t) (data : slice) :
  txStore_tx (db s) id = Ok pos ->
  blockStore_block (db s) (blockRegion.height pos) = Ok data ->
  uint32 (blockRegion.offset pos + blockRegion.length pos) <= uint32 (len data) ->
  cap data < hash.HashSize + 5 ->
  eval (Transaction id) s = Panic.
Proof.
  intros Htx Hblk Hguard Hcap. rewrite Transaction_eval, Htx, Hblk.
  rewrite bool_decide_eq_false_2 by lia.
  destruct (reslice data (hash.HashSize + 1) (hash.HashSize + 5)) as [t|] eqn:Ht;
    [|reflexivity].
  destruct (reslice_Some_inv _ _ _ _ Ht) as (_ & _ & Hc & _). lia.
Qed.

Lemma Block_eval `{Allocator} (s : store) (h : Z) :
  eval (Block h) s
  = match blockStore_block (db s) h with
    | Err err => Return (Err err)
    | Ok data =>
        match reslice data 0 hash.HashSize with
        | None => Panic
        | Some hs =>
            match hash.FromBytes (elems hs) with
            | Err err => Return (Err err)
            | Ok blockHash =>
                match reslice_from data hash.HashSize with
                | None => Panic
                | Some rest => Return (Ok (CommittedBlock.mk blockHash h rest))
                end
            end
        end
    end.
Proof.
  unfold Block. run.
  destruct (blockStore_block (db s) h) as [data|]; [|reflexivity].
  destruct (reslice data 0 hash.HashSize) as [hs|]; [|reflexivity].
  destruct (hash.FromBytes (elems hs)); [|reflexivity].
  by destruct (reslice_from data hash.HashSize).
Qed.

Lemma BlockHash_eval `{Allocator} (s : store) (h : Z) :
  eval (BlockHash h) s
  = match blockStore_block (db s) h with
    | Ok data =>
        match reslice data 0 hash.HashSize with
        | None => Panic
        | Some hs =>
            match hash.FromBytes (elems hs) with
            | Ok blockHash => Return blockHash
            | Err _ => Return hash.UndefHash
            end
        end
    | Err _ => Return hash.UndefHash
    end.
Proof.
  unfold BlockHash. run.
  destruct (blockStore_block (db s) h) as [data|]; [|reflexivity].
  destruct (reslice data 0 hash.HashSize) as [hs|]; [|reflexivity].
  by destruct (hash.FromBytes (elems hs)).
Qed.

Lemma FromBytes_of_hash_slice (data hs : slice) :
  reslice data 0 hash.HashSize = Some hs -> hash.FromBytes (elems hs) = Ok (elems hs).
Proof.
  intros Hhs. pose proof (reslice_length _ _ _ _ Hhs) as Hlen.
  unfold hash.FromBytes. rewrite bool_decide_eq_true_2; [done|]. lia.
Qed.

(** X5: a stored value of fewer than 32 bytes makes [Block] panic,
    whatever the capacity of its slice. *)
Theorem Block_short_value_panics `{Allocator} (s : store) (h : Z) (data : slice) :
  blockStore_block (db s) h = Ok data ->
  len data < hash.HashSize ->
  eval (Block h) s = Panic.
Proof.
  intros Hblk Hlen. rewrite Block_eval, Hblk.
  destruct (reslice data 0 hash.HashSize) as [hs|] eqn:Hhs; [|reflexivity].
  rewrite (FromBytes_of_hash_slice _ _ Hhs).
  unfold reslice_from. by rewrite (proj2 (Z.leb_gt _ _)) by lia.
Qed.

Lemma Block_ok_inv `{Allocator} (s : store) (h : Z) (b : CommittedBlock.t) :
  eval (Block h) s = Return (Ok b) ->
  exists data hs,
    blockStore_block (db s) h = Ok data
    /\ reslice data 0 hash.HashSize = Some hs
    /\ elems hs = CommittedBlock.BlockHash b
    /\ elems data = CommittedBlock.BlockHash b ++ elems (CommittedBlock.Data b)
    /\ CommittedBlock.Height b = h.
Proof.
  rewrite Block_eval.
  destruct (blockStore_block (db s) h) as [data|] eqn:Hblk; [|discriminate].
  destruct (reslice data 0 hash.HashSize) as [hs|] eqn:Hhs; [|discriminate].
  rewrite (FromBytes_of_hash_slice _ _ Hhs).
  unfold reslice_from. destruct (hash.HashSize <=? len data) eqn:Hle; [|discriminate].
  apply Z.leb_le in Hle.
  destruct (reslice data hash.HashSize (len data)) as [rest|] eqn:Hrest; [|discriminate].
  intros [= <-]. simpl.
  assert (H32 : hash.HashSize = 32) by reflexivity.
  pose proof (reslice_elems _ _ _ _ Hhs ltac:(lia)) as Ehs.
  pose proof (reslice_elems _ _ _ _ Hrest ltac:(lia)) as Erest.
  rewrite Z.sub_0_r in Ehs. change (Z.to_nat 0) with 0%nat in Ehs. rewrite drop_0 in Ehs.
  exists data, hs. split_and!; try done.
  rewrite Ehs, Erest.
  rewrite (take_ge (drop _ _)) by (rewrite length_drop; unfold len; lia).
  by rewrite take_drop.
Qed.

(** X6: a block that [Block] returns splits the stored value: its hash
    is the leading 32 bytes, its data are the rest, its height is the
    one asked for, and [BlockHash] of that height returns its hash. *)
Theorem Block_ok_splits_stored_value `{Allocator} (s : store) (h : Z)
    (b : CommittedBlock.t) :
  eval (Block h) s = Return (Ok b) ->
  exists data,
    blockStore_block (db s) h = Ok data
    /\ elems data = CommittedBlock.BlockHash b ++ elems (CommittedBlock.Data b)
    /\ Z.of_nat (List.length (CommittedBlock.BlockHash b)) = hash.HashSize
    /\ CommittedBlock.Height b = h
    /\ eval (BlockHash h) s = Return (CommittedBlock.BlockHash b).
Proof.
  intros E. destruct (Block_ok_inv s h b E) as (data & hs & Hblk & Hhs & Ehs & Hsplit & Hh).
  exists data. split_and!; try done.
  - by rewrite <- Ehs, (reslice_length _ _ _ _ Hhs), Z.sub_0_r.
  - by rewrite BlockHash_eval, Hblk, Hhs, (FromBytes_of_hash_slice _ _ Hhs), Ehs.
Qed.

(** X7: the errors of [Block] are those of the lookup of the stored
    value and no others, and where [Block] returns one, [BlockHash]
    returns the undefined hash. *)
Theorem Block_errors_are_lookup_errors `{Allocator} (s : store) (h : Z) (e : error) :
  (eval (Block h) s = Return (Err e) <-> blockStore_block (db s) h = Err e)
  /\ (blockStore_block (db s) h = Err e -> eval (BlockHash h) s = Return hash.UndefHash).
Proof.
  rewrite Block_eval, BlockHash_eval. split; [split|].
  - destruct (blockStore_block (db s) h) as [data|]; [|congruence].
    destruct (reslice data 0 hash.HashSize) as [hs|] eqn:Hhs; [|discriminate].
    rewrite (FromBytes_of_hash_slice _ _ Hhs).
    by destruct (reslice_from data hash.HashSize).
  - by intros ->.
  - by intros ->.
Qed.

(** X8: [BlockHash] does not look at the length of the stored value:
    with capacity for 32 bytes it returns the first 32 bytes of the
    backing array, also those past the end of a shorter value, and with
    less capacity it panics. *)
Theorem BlockHash_reads_the_backing_array `{Allocator} (s : store) (h : Z) (data : slice) :
  blockStore_block (db s) h = Ok data ->
  (hash.HashSize <= cap data ->
   eval (BlockHash h) s
   = Return (take (Z.to_nat hash.HashSize) (elems data ++ spare data)))
  /\ (cap data < hash.HashSize -> eval (BlockHash h) s = Panic).
Proof.
  intros Hblk. rewrite BlockHash_eval, Hblk. split; intros Hcap.
  - destruct (reslice_in_range data 0 hash.HashSize) as [hs Hhs];
      [unfold hash.HashSize; lia|done|].
    rewrite Hhs, (FromBytes_of_hash_slice _ _ Hhs).
    destruct (reslice_Some_inv _ _ _ _ Hhs) as (_ & _ & _ & ->).
    rewrite Z.sub_0_r. change (Z.to_nat 0) with 0%nat. by rewrite drop_0.
  - destruct (reslice data 0 hash.HashSize) as [hs|] eqn:Hhs; [|reflexivity].
    destruct (reslice_Some_inv _ _ _ _ Hhs) as (_ & _ & Hc & _). lia.
Qed.

Lemma AnyRecentTransaction_eval `{Allocator} (s : store) (id : hash.Hash) :
  eval (AnyRecentTransaction id) s
  = Return (match txStore_tx (db s) id with Ok _ => true | Err _ => false end).
Proof. reflexivity. Qed.

(** X9: [AnyRecentTransaction] looks at the position record and at
    nothing else: it is true exactly when the lookup of the record
    succeeds and false exactly when that lookup fails, so two states
    that agree on the lookup get one answer.  Hence a transaction that
    [Transaction] returns is one that it reports, and for an id that it
    does not report [Transaction] returns the error of the lookup; but it
    also reports an id whose record names a block that is not there, or
    a range past the end of its block, for which [Transaction] returns
    an error. *)
Theorem AnyRecentTransaction_bounds_Transaction `{Allocator} (s : store) (id : hash.Hash) :
  (eval (AnyRecentTransaction id) s = Return true
   <-> exists pos, txStore_tx (db s) id = Ok pos)
  /\ (eval (AnyRecentTransaction id) s = Return false
      <-> exists e, txStore_tx (db s) id = Err e)
  /\ (forall s', txStore_tx (db s') id = txStore_tx (db s) id ->
                 eval (AnyRecentTransaction id) s' = eval (AnyRecentTransaction id) s)
  /\ (forall tx, eval (Transaction id) s = Return (Ok tx) ->
                 eval (AnyRecentTransaction id) s = Return true)
  /\ (eval (AnyRecentTransaction id) s = Return false ->
      exists e, txStore_tx (db s) id = Err e
                /\ eval (Transaction id) s = Return (Err e))
  /\ (forall pos e,
        txStore_tx (db s) id = Ok pos ->
        blockStore_block (db s) (blockRegion.height pos) = Err e ->
        eval (AnyRecentTransaction id) s = Return true
        /\ eval (Transaction id) s = Return (Err e))
  /\ (forall pos data,
        txStore_tx (db s) id = Ok pos ->
        blockStore_block (db s) (blockRegion.height pos) = Ok data ->
        uint32 (blockRegion.offset pos + blockRegion.length pos) > uint32 (len data) ->
        eval (AnyRecentTransaction id) s = Return true
        /\ eval (Transaction id) s = Return (Err ErrBadOffset)).
Proof.
  rewrite Transaction_eval, !AnyRecentTransaction_eval.
  split_and!.
  - destruct (txStore_tx (db s) id) as [pos|]; split; try done; eauto.
    by intros [? ?].
  - destruct (txStore_tx (db s) id) as [pos|]; split; try done; eauto.
    by intros [? ?].
  - intros s' E. by rewrite AnyRecentTransaction_eval, E.
  - intros tx. by destruct (txStore_tx (db s) id).
  - destruct (txStore_tx (db s) id) as [pos|]; [done|]. eauto.
  - intros pos e -> ->. done.
  - intros pos data -> -> Hgt. by rewrite (bool_decide_eq_true_2 _ Hgt).
Qed.

(** ** More on commits, the last certificate and the lock *)

Lemma saveTxs_frame `{BlockOps} (txs : list Tx_t) (reg : list blockRegion.t)
    (i : nat) (s : store) :
  db (saveTxs i txs reg s).2 = db s
  /\ accounts (saveTxs i txs reg s).2 = accounts s
  /\ validators (saveTxs i txs reg s).2 = validators s
  /\ batch s `prefix_of` batch (saveTxs i txs reg s).2.
Proof.
  revert i s. induction txs as [|trx txs IH]; intros i s; simpl; [done|].
  destruct (reg !! i) as [r|]; [|done]. unfold bind, modify.
  destruct (IH (S i) (with_batch s (txStore_saveTx (batch s) (tx_ID trx) r)))
    as (Hd & Ha & Hv & Hb).
  rewrite Hd, Ha, Hv. split; [done|]. split; [done|]. split; [done|].
  etrans; [|exact Hb]. simpl. unfold txStore_saveTx, Put. by apply prefix_app_r.
Qed.

Lemma SaveBlock_frame `{CertificateOps} `{BlockOps} (blk : Block_t) (cert : Certificate_t)
    (s : store) :
  db (exec (SaveBlock blk cert) s) = db s
  /\ accounts (exec (SaveBlock blk cert) s) = accounts s
  /\ validators (exec (SaveBlock blk cert) s) = validators s
  /\ batch s `prefix_of` batch (exec (SaveBlock blk cert) s).
Proof.
  unfold exec, SaveBlock, locked, bind. simpl.
  match goal with |- context [saveTxs ?i ?t ?r ?s0] =>
    destruct (saveTxs_frame t r i s0) as (Hd & Ha & Hv & Hb);
    destruct (saveTxs i t r s0) as [[[]|] s1] eqn:E end; simpl in *.
  - assert (Hpre : batch s `prefix_of` batch s1).
    { etrans; [|exact Hb]. unfold blockStore_saveBlock, Put. simpl.
      rewrite <- app_assoc. by apply prefix_app_r. }
    destruct (cert_Encode cert); simpl; rewrite ?Hd, ?Ha, ?Hv; repeat split; try done.
    unfold Put. etrans; [exact Hpre|]. by apply prefix_app_r.
  - rewrite Hd, Ha, Hv. repeat split; try done.
    etrans; [|exact Hb]. unfold blockStore_saveBlock, Put. simpl.
    rewrite <- app_assoc. by apply prefix_app_r.
Qed.

Lemma BlockHeight_eval `{Allocator} (s : store) (hs : hash.Hash) :
  eval (BlockHeight hs) s = Return (blockStore_blockHeight (db s) hs).
Proof. reflexivity. Qed.

(** X10: [SaveBlock] only queues: it leaves the engine and the
    sub-stores as they are and the records already in the batch in their
    places, so that until the batch is written every lookup returns what
    it returned before. *)
Theorem SaveBlock_only_queues `{Allocator} `{CertificateOps} `{BlockOps}
    (blk : Block_t) (cert : Certificate_t) (s : store) :
  db (exec (SaveBlock blk cert) s) = db s
  /\ accounts (exec (SaveBlock blk cert) s) = accounts s
  /\ validators (exec (SaveBlock blk cert) s) = validators s
  /\ batch s `prefix_of` batch (exec (SaveBlock blk cert) s)
  /\ eval LastCertificate (exec (SaveBlock blk cert) s) = eval LastCertificate s
  /\ (forall h, eval (Block h) (exec (SaveBlock blk cert) s) = eval (Block h) s)
  /\ (forall h, eval (BlockHash h) (exec (SaveBlock blk cert) s) = eval (BlockHash h) s)
  /\ (forall hs, eval (BlockHeight hs) (exec (SaveBlock blk cert) s)
                 = eval (BlockHeight hs) s)
  /\ (forall id, eval (Transaction id) (exec (SaveBlock blk cert) s)
                 = eval (Transaction id) s)
  /\ (forall id, eval (AnyRecentTransaction id) (exec (SaveBlock blk cert) s)
                 = eval (AnyRecentTransaction id) s).
Proof.
  destruct (SaveBlock_frame blk cert s) as (Hd & Ha & Hv & Hb).
  split; [done|]. split; [done|]. split; [done|]. split; [done|].
  split; [by rewrite !LastCertificate_eval, Hd|].
  split; [intros h; by rewrite !Block_eval, Hd|].
  split; [intros h; by rewrite !BlockHash_eval, Hd|].
  split; [intros hs; by rewrite !BlockHeight_eval, Hd|].
  split; [intros id; by rewrite !Transaction_eval, Hd|].
  intros id. by rewrite !AnyRecentTransaction_eval, Hd.
Qed.

(** X11: [SaveBlock] panics exactly when the certificate does not
    encode; the records of the block and of its transactions are then
    in the batch already, the record of the last certificate is not,
    and the lock is released. *)
Theorem SaveBlock_panics_on_certificate `{CertificateOps} `{BlockOps}
    (blk : Block_t) (cert : Certificate_t) (s : store) :
  (eval (SaveBlock blk cert) s = Panic <-> cert_Encode cert = None)
  /\ (cert_Encode cert = None ->
      batch (exec (SaveBlock blk cert) s)
      = batch s
        ++ [(blockKey (cert_Height cert), blk_Hash blk ++ blk_Bytes blk);
            (blockHashKey (blk_Hash blk), encoding.PutUint32 (cert_Height cert))]
        ++ tx_puts (blk_Transactions blk)
             (map (fun r => blockRegion.mk (cert_Height cert) r.1 r.2) (blk_Regions blk))
      /\ lk (exec (SaveBlock blk cert) s) = lk s ++ [EvLock; EvUnlock]).
Proof.
  assert (Hnone : cert_Encode cert = None ->
                  SaveBlock blk cert s
                  = (Panic,
                     mkStore (lk s ++ [EvLock; EvUnlock]) (db s)
                       (batch s
                        ++ [(blockKey (cert_Height cert), blk_Hash blk ++ blk_Bytes blk);
                            (blockHashKey (blk_Hash blk),
                             encoding.PutUint32 (cert_Height cert))]
                        ++ tx_puts (blk_Transactions blk)
                             (map (fun r => blockRegion.mk (cert_Height cert) r.1 r.2)
                                (blk_Regions blk)))
                       (accounts s) (validators s))).
  { intros Hc. unfold SaveBlock, locked, bind. simpl.
    rewrite saveTxs_spec.
    2: { simpl. rewrite length_map, blk_Regions_length. lia. }
    rewrite Hc. unfold panic, with_batch, with_lk, blockStore_saveBlock, Put.
    simpl. rewrite drop_0. f_equal. f_equal; [by rewrite <- app_assoc|].
    rewrite <- !app_assoc. reflexivity. }
  split; [split|].
  - intros Hp. destruct (cert_Encode cert) as [c|] eqn:Hc; [|done].
    unfold eval in Hp. by rewrite (SaveBlock_spec blk cert c s Hc) in Hp.
  - intros Hc. unfold eval. by rewrite (Hnone Hc).
  - intros Hc. unfold exec. by rewrite (Hnone Hc).
Qed.

Lemma Uint32_skips_four (ver rest : bytes) :
  List.length ver = 4%nat -> exists v, encoding.Uint32 (ver ++ rest) = Some (v, rest).
Proof.
  destruct ver as [|b3 [|b2 [|b1 [|b0 [|? ?]]]]]; try discriminate.
  intros _. unfold encoding.Uint32. simpl. eauto.
Qed.

(** X12: [LastCertificate] reads the version and does not look at it:
    whatever the four bytes of the version are, the result is what the
    bytes after them decode to. *)
Theorem LastCertificate_ignores_version `{Allocator} `{CertificateOps} (s : store)
    (data : slice) (ver rest : bytes) :
  tryGet (db s) lastInfoKey = Ok data ->
  elems data = ver ++ rest ->
  List.length ver = 4%nat ->
  eval LastCertificate s = Return (cert_Decode rest).
Proof.
  intros Hget Hdata Hver. rewrite LastCertificate_eval, Hget, Hdata.
  destruct (Uint32_skips_four ver rest Hver) as [v ->]. reflexivity.
Qed.

Lemma gets_lk {A} (f : store -> A) (s : store) : lk (gets f s).2 = lk s.
Proof. reflexivity. Qed.

(** *** The accesses of a call and the lock *)

Lemma brackets_guarded (t : list Traced.event) :
  (Traced.brackets EvLock EvUnlock Traced.is_access t -> Traced.guarded Traced.Free t = true)
  /\ (Traced.brackets EvRLock EvRUnlock Traced.is_read t
      -> Traced.guarded Traced.Free t = true).
Proof.
  split; intros (body & -> & _ & Hall); simpl;
    induction Hall as [|e body He _ IH]; simpl; try done.
  - by destruct He as [-> | ->].
  - by rewrite He.
Qed.






(** X14: the block time of a transaction is read from the stored value
    of its block at fixed places: the transactions of one block have one
    block time, and it is what the bytes 1 to 4 of the data of the block,
    as [Block] returns them, decode to. *)
Theorem Transaction_block_time `{Allocator} (s : store) (id : hash.Hash)
    (tx : CommittedTx.t) :
  eval (Transaction id) s = Return (Ok tx) ->
  (forall id' tx',
      eval (Transaction id') s = Return (Ok tx') ->
      CommittedTx.Height tx' = CommittedTx.Height tx ->
      CommittedTx.BlockTime tx' = CommittedTx.BlockTime tx)
  /\ (forall b,
        eval (Block (CommittedTx.Height tx)) s = Return (Ok b) ->
        5 <= Z.of_nat (List.length (elems (CommittedBlock.Data b))) ->
        CommittedTx.BlockTime tx
        = encoding.SliceToUint32 (take 4 (drop 1 (elems (CommittedBlock.Data b))))).
Proof.
  assert (Htime : forall i t,
            eval (Transaction i) s = Return (Ok t) ->
            exists data ts,
              blockStore_block (db s) (CommittedTx.Height t) = Ok data
              /\ reslice data (hash.HashSize + 1) (hash.HashSize + 5) = Some ts
              /\ CommittedTx.BlockTime t = encoding.SliceToUint32 (elems ts)).
  { intros i t. rewrite Transaction_eval.
    destruct (txStore_tx (db s) i) as [pos|]; [|discriminate].
    destruct (blockStore_block (db s) (blockRegion.height pos)) as [data|] eqn:Hblk;
      [|discriminate].
    destruct (bool_decide _); [discriminate|].
    destruct (reslice data (hash.HashSize + 1) _) as [ts|] eqn:Hts; [|discriminate].
    destruct (reslice data (blockRegion.offset pos) _); [|discriminate].
    intros [= <-]. simpl. eauto. }
  intros E. destruct (Htime id tx E) as (data & ts & Hblk & Hts & Ht).
  split.
  - intros id' tx' E' Hh. destruct (Htime id' tx' E') as (data' & ts' & Hblk' & Hts' & Ht').
    rewrite Hh, Hblk in Hblk'. injection Hblk' as <-.
    rewrite Hts in Hts'. injection Hts' as <-. congruence.
  - intros b Eb Hlen.
    destruct (Block_ok_inv s _ b Eb) as (data' & hs & Hblk' & Hhs' & Ehs & Hsplit & _).
    assert (Hhs : Z.of_nat (List.length (CommittedBlock.BlockHash b)) = hash.HashSize)
      by (by rewrite <- Ehs, (reslice_length _ _ _ _ Hhs'), Z.sub_0_r).
    rewrite Hblk in Hblk'. injection Hblk' as <-.
    rewrite Ht. f_equal.
    destruct (reslice_Some_inv _ _ _ _ Hts) as (_ & _ & _ & ->).
    assert (H32 : hash.HashSize = 32) by reflexivity.
    replace (Z.to_nat (hash.HashSize + 5 - (hash.HashSize + 1))) with 4%nat by lia.
    rewrite Hsplit, <- !app_assoc.
    rewrite drop_app_ge by lia.
    replace (Z.to_nat (hash.HashSize + 1) - List.length (CommittedBlock.BlockHash b))%nat
      with 1%nat by lia.
    rewrite drop_app_le by lia.
    rewrite take_app_le; [done|]. rewrite length_drop. lia.
Qed.

(** * The properties at the small instance *)

Import Example.

Lemma Transaction_wrapped_end_panics_witness :
  eval (Transaction (replicate 32 Byte.xaa)) Example.stale = Panic.
Proof.
  refine (proj2 (proj2 (Transaction_wrapped_end_panics Example.stale (replicate 32 Byte.xaa)
    (blockRegion.mk 1 4294967295 2)
    (Slice (replicate 32 Byte.x11 ++ Example.ramp 32 168) (replicate 8 Byte.x00))
    _ _ _ _))).
  - vm_compute. reflexivity.
  - vm_compute. reflexivity.
  - simpl. lia.
  - vm_compute. discriminate.
Defined.

(** C1: at the stored position record (height 1, offset 4294967295,
    length 2), whose range ends past the 200 stored bytes of block 1, the
    lookup panics; it does not report a bad offset. *)
Theorem Transaction_stale_record_panics :
  txStore_tx (db Example.stale) (replicate 32 Byte.xaa)
    = Ok (blockRegion.mk 1 4294967295 2)
  /\ (exists data, blockStore_block (db Example.stale) 1 = Ok data
                   /\ len data = 200 /\ len data < 4294967295 + 2)
  /\ eval (Transaction (replicate 32 Byte.xaa)) Example.stale = Panic
  /\ eval (Transaction (replicate 32 Byte.xaa)) Example.stale <> Return (Err ErrBadOffset).
Proof.
  split; [vm_compute; reflexivity|].
  split.
  - eexists. split; [vm_compute; reflexivity|]. split; [vm_compute; reflexivity|].
    vm_compute. reflexivity.
  - assert (E : eval (Transaction (replicate 32 Byte.xaa)) Example.stale = Panic)
      by (vm_compute; reflexivity).
    rewrite E. split; [reflexivity | discriminate].
Qed.

(** C2, as stated, fails at block 1: the 120 bytes returned for its
    transaction, recorded at offset 40, are not the bytes 40 to 160 of the
    data that [Block] returns. *)
Lemma Transaction_differs_from_Block_Data_range :
  exists tx blk,
    txStore_tx (db committed1) (tx_ID tx0) = Ok (blockRegion.mk 1 40 120)
    /\ eval (Transaction (tx_ID tx0)) committed1 = Return (Ok tx)
    /\ eval (Block 1) committed1 = Return (Ok blk)
    /\ List.length (elems (CommittedTx.Data tx)) = 120%nat
    /\ elems (CommittedTx.Data tx)
       <> take 120 (drop 40 (elems (CommittedBlock.Data blk))).
Proof.
  eexists. eexists.
  split; [vm_compute; reflexivity|].
  split; [vm_compute; reflexivity|].
  split; [vm_compute; reflexivity|].
  split; [vm_compute; reflexivity|].
  intros E. vm_compute in E. discriminate E.
Qed.

Lemma committed_transaction_bytes_witness :
  (exists tx b,
      eval (Transaction (tx_ID tx0)) committed2 = Return (Ok tx)
      /\ eval (Block 1) committed2 = Return (Ok b)
      /\ elems (CommittedTx.Data tx) = ramp 40 120
      /\ elems (CommittedTx.Data tx)
         = take 120 (drop 8 (elems (CommittedBlock.Data b))))
  /\ (exists tx b,
      eval (Transaction (tx_ID tx1)) committed2 = Return (Ok tx)
      /\ eval (Block 2) committed2 = Return (Ok b)
      /\ elems (CommittedTx.Data tx)
         = take 120 (drop 40 (elems (CommittedBlock.Data b))))
  /\ eval (Transaction (replicate 32 Byte.xbb)) committed2
     = Return (Err leveldb_ErrNotFound).
Proof.
  destruct (committed_transaction_bytes [(block1, cert1); (block2, cert2)] NewStore)
    as [Hpos Hnone].
  - reflexivity.
  - repeat constructor; eexists; reflexivity.
  - compute_done.
  - compute_done.
  - compute_done.
  - split; [|split].
    + destruct (Hpos block1 cert1 0%nat tx0 40 120)
        as (tx & Etx & _ & _ & Ed & Hb);
        [constructor|reflexivity|reflexivity|lia|lia|vm_compute; split; [discriminate|reflexivity]
        |vm_compute; discriminate|].
      destruct Hb as (b & Eb & _ & Edb); [vm_compute; discriminate|].
      exists tx, b. split; [exact Etx|]. split; [exact Eb|].
      split; [rewrite Ed; vm_compute; reflexivity|exact Edb].
    + destruct (Hpos block2 cert2 0%nat tx1 72 120)
        as (tx & Etx & _ & _ & _ & Hb);
        [constructor; constructor|reflexivity|reflexivity|lia|lia
        |vm_compute; split; [discriminate|reflexivity]
        |vm_compute; discriminate|].
      destruct Hb as (b & Eb & _ & Edb); [vm_compute; discriminate|].
      exists tx, b. split; [exact Etx|]. split; [exact Eb|exact Edb].
    + apply Hnone. vm_compute. reflexivity.
Defined.

Lemma WriteBatch_flushes_or_keeps_witness :
  (eval WriteBatch (exec (SaveBlock block1 cert1) NewStore) = Return None
   /\ batch (exec WriteBatch (exec (SaveBlock block1 cert1) NewStore)) = []
   /\ tryGet (db (exec WriteBatch (exec (SaveBlock block1 cert1) NewStore))) lastInfoKey
      = Ok (Slice [Byte.x00; Byte.x00; Byte.x00; Byte.x01; Byte.x01; Byte.x5a; Byte.xa5]
              (replicate 9 Byte.x00)))
  /\ (eval WriteBatch (exec Close (exec (SaveBlock block1 cert1) NewStore))
      = Return (Some leveldb_ErrClosed)
      /\ batch (exec WriteBatch (exec Close (exec (SaveBlock block1 cert1) NewStore)))
         = batch (exec (SaveBlock block1 cert1) NewStore))
  /\ (eval WriteBatch NewStore = Return None /\ db (exec WriteBatch NewStore) = db NewStore).
Proof.
  split; [|split].
  - destruct (proj1 (WriteBatch_flushes_or_keeps (exec (SaveBlock block1 cert1) NewStore)))
      as (E & Hb & Hv & _); [reflexivity|].
    split; [exact E|]. split; [exact Hb|].
    apply (Hv lastInfoKey). vm_compute. reflexivity.
  - destruct (proj1 (proj2 (WriteBatch_flushes_or_keeps
                              (exec Close (exec (SaveBlock block1 cert1) NewStore))))
                leveldb_ErrClosed) as (E & Hb & _); [reflexivity|].
    split; [exact E|exact Hb].
  - destruct (proj2 (proj2 (WriteBatch_flushes_or_keeps NewStore)))
      as (E & _ & Hd); [reflexivity|reflexivity|].
    split; [exact E|exact Hd].
Defined.

Lemma LastCertificate_is_last_committed_witness :
  eval LastCertificate committed2 = Return (Some cert2).
Proof.
  refine (proj2 (proj2 LastCertificate_is_last_committed NewStore [(block1, cert1)]
                   block2 cert2 _ _)).
  - reflexivity.
  - repeat constructor; eexists; split; reflexivity.
Defined.

(** C6, as stated, fails at a record of one byte, which holds no version,
    and at a record of a version and nothing else, which holds no
    certificate: both read as the store with no record does. *)
Lemma LastCertificate_malformed_reads_as_absent :
  encoding.Uint32 [Byte.x00] = None
  /\ encoding.Uint32 [Byte.x00; Byte.x00; Byte.x00; Byte.x01] = Some (1, [])
  /\ cert_Decode [] = None
  /\ eval LastCertificate (with_db NewStore (mkDB {[ lastInfoKey := [Byte.x00] ]} None))
     = eval LastCertificate NewStore
  /\ eval LastCertificate
       (with_db NewStore
          (mkDB {[ lastInfoKey := [Byte.x00; Byte.x00; Byte.x00; Byte.x01] ]} None))
     = eval LastCertificate NewStore.
Proof. repeat split; vm_compute; reflexivity. Qed.

Lemma LastCertificate_nil_absent_or_malformed_witness :
  eval LastCertificate NewStore = Return None
  /\ eval LastCertificate
       (with_db NewStore
          (mkDB {[ lastInfoKey := [Byte.x00; Byte.x00; Byte.x00; Byte.x01] ]} None))
     = Return None
  /\ eval LastCertificate committed1 = Return (Some cert1)
  /\ kv (db committed1) !! lastInfoKey
     = Some [Byte.x00; Byte.x00; Byte.x00; Byte.x01; Byte.x01; Byte.x5a; Byte.xa5]
  /\ eval LastCertificate
       (with_db committed1 (mkDB (kv (db committed1)) (Some leveldb_ErrClosed)))
     = Return None.
Proof.
  split_and!.
  - apply (proj1 (LastCertificate_nil_absent_or_malformed NewStore)). reflexivity.
  - apply (proj1 (proj2 (proj2 (LastCertificate_nil_absent_or_malformed _)))
             [Byte.x00; Byte.x00; Byte.x00; Byte.x01]).
    + reflexivity.
    + vm_compute. reflexivity.
    + right. exists 1, []. split; vm_compute; reflexivity.
  - apply (proj1 (proj2 (proj2 (proj2 (LastCertificate_nil_absent_or_malformed committed1))))
             [Byte.x00; Byte.x00; Byte.x00; Byte.x01; Byte.x01; Byte.x5a; Byte.xa5]
             1 [Byte.x01; Byte.x5a; Byte.xa5]); vm_compute; reflexivity.
  - vm_compute. reflexivity.
  - apply (proj1 (proj2 (LastCertificate_nil_absent_or_malformed _)) leveldb_ErrClosed).
    reflexivity.
Defined.

Lemma committed_block_hash_and_height_witness :
  eval (BlockHash 1) committed2 = Return (replicate 32 Byte.x11)
  /\ eval (BlockHeight (replicate 32 Byte.x11)) committed2 = Return 1.
Proof.
  destruct (committed_block_hash_and_height [(block1, cert1); (block2, cert2)]
              NewStore block1 cert1) as (b & _ & Hh & _ & _ & E1 & E2).
  - reflexivity.
  - repeat constructor; eexists; reflexivity.
  - compute_done.
  - compute_done.
  - constructor.
  - rewrite Hh in E1, E2. split; [exact E1|exact E2].
Defined.



Lemma validator_numbers_increase_and_stay_witness :
  batch (exec (validator_calls [validator alice 7 Byte.x10; validator bob 7 Byte.x20;
                                validator alice 9 Byte.x30]) NewStore)
  = [(validatorKey alice, val_Bytes (validator alice 0 Byte.x10));
     (validatorKey bob, val_Bytes (validator bob 1 Byte.x20));
     (validatorKey alice, val_Bytes (validator alice 0 Byte.x30))]
  /\ eval TotalValidators
       (exec (validator_calls [validator alice 7 Byte.x10; validator bob 7 Byte.x20;
                               validator alice 9 Byte.x30]) NewStore)
     = Return 2.
Proof.
  destruct (validator_numbers_increase_and_stay
              [validator alice 7 Byte.x10; validator bob 7 Byte.x20;
               validator alice 9 Byte.x30])
    as (_ & Hb & _ & _ & _ & _ & Ht & _).
  - vm_compute. reflexivity.
  - split; [exact Hb|exact Ht].
Defined.

(** ** Further properties at the small instance *)

Lemma Transaction_bad_offset_witness :
  eval (Transaction (replicate 32 Byte.xaa)) past_end = Return (Err ErrBadOffset).
Proof.
  refine (Transaction_bad_offset past_end (replicate 32 Byte.xaa)
            (blockRegion.mk 1 150 100)
            (Slice (replicate 32 Byte.x11 ++ ramp 32 168) (replicate 8 Byte.x00))
            _ _ _ _).
  - vm_compute. reflexivity.
  - vm_compute. reflexivity.
  - simpl. lia.
  - vm_compute. reflexivity.
Defined.

Lemma Transaction_ok_is_exact_witness :
  exists tx pos data,
    eval (Transaction (tx_ID tx0)) committed1 = Return (Ok tx)
    /\ txStore_tx (db committed1) (tx_ID tx0) = Ok pos
    /\ blockStore_block (db committed1) (blockRegion.height pos) = Ok data
    /\ blockRegion.offset pos + blockRegion.length pos <= len data
    /\ Z.of_nat (List.length (elems (CommittedTx.Data tx))) = blockRegion.length pos.
Proof.
  assert (E : { tx | eval (Transaction (tx_ID tx0)) committed1 = Return (Ok tx) })
    by (eexists; vm_compute; reflexivity).
  destruct E as [tx E].
  destruct (Transaction_ok_is_exact committed1 (tx_ID tx0) tx E)
    as (pos & data & Htx & Hblk & _ & _ & Hin & _ & Hn).
  exists tx, pos, data. auto.
Defined.

Lemma Transaction_passes_lookup_errors_witness :
  eval (Transaction (replicate 32 Byte.xbb)) committed1 = Return (Err leveldb_ErrNotFound)
  /\ txStore_tx (db dangling) (replicate 32 Byte.xdd) = Ok (blockRegion.mk 9 0 4)
  /\ eval (Transaction (replicate 32 Byte.xdd)) dangling = Return (Err leveldb_ErrNotFound).
Proof.
  split; [|split].
  - apply (proj1 (Transaction_passes_lookup_errors committed1 (replicate 32 Byte.xbb)
                    leveldb_ErrNotFound)).
    vm_compute. reflexivity.
  - vm_compute. reflexivity.
  - apply (proj2 (Transaction_passes_lookup_errors dangling (replicate 32 Byte.xdd)
                    leveldb_ErrNotFound) (blockRegion.mk 9 0 4));
      vm_compute; reflexivity.
Defined.

Lemma Transaction_short_block_panics_witness :
  eval (Transaction (replicate 32 Byte.xee)) short_block = Panic.
Proof.
  refine (Transaction_short_block_panics short_block (replicate 32 Byte.xee)
            (blockRegion.mk 3 0 5) (Slice (ramp 0 10) (replicate 6 Byte.x00)) _ _ _ _).
  - vm_compute. reflexivity.
  - vm_compute. reflexivity.
  - vm_compute. discriminate.
  - vm_compute. reflexivity.
Defined.

Lemma Block_short_value_panics_witness : eval (Block 3) short_block = Panic.
Proof.
  refine (Block_short_value_panics short_block 3
            (Slice (ramp 0 10) (replicate 6 Byte.x00)) _ _).
  - vm_compute. reflexivity.
  - vm_compute. reflexivity.
Defined.

Lemma Block_ok_splits_stored_value_witness :
  exists b data,
    eval (Block 1) committed1 = Return (Ok b)
    /\ blockStore_block (db committed1) 1 = Ok data
    /\ elems data = CommittedBlock.BlockHash b ++ elems (CommittedBlock.Data b)
    /\ eval (BlockHash 1) committed1 = Return (CommittedBlock.BlockHash b).
Proof.
  assert (E : { b | eval (Block 1) committed1 = Return (Ok b) })
    by (eexists; vm_compute; reflexivity).
  destruct E as [b E].
  destruct (Block_ok_splits_stored_value committed1 1 b E)
    as (data & Hblk & Hsplit & _ & _ & Hh).
  exists b, data. auto.
Defined.

Lemma Block_errors_are_lookup_errors_witness :
  eval (Block 7) committed1 = Return (Err leveldb_ErrNotFound)
  /\ eval (BlockHash 7) committed1 = Return hash.UndefHash.
Proof.
  split.
  - apply (proj1 (Block_errors_are_lookup_errors committed1 7 leveldb_ErrNotFound)).
    vm_compute. reflexivity.
  - apply (proj2 (Block_errors_are_lookup_errors committed1 7 leveldb_ErrNotFound)).
    vm_compute. reflexivity.
Defined.

Lemma BlockHash_reads_the_backing_array_witness :
  eval (BlockHash 4) clipped_block = Return (ramp 1 20 ++ replicate 12 Byte.x00)
  /\ eval (BlockHash 3) short_block = Panic.
Proof.
  split.
  - refine (proj1 (BlockHash_reads_the_backing_array clipped_block 4
                     (Slice (ramp 1 20) (replicate 12 Byte.x00)) _) _).
    + vm_compute. reflexivity.
    + vm_compute. discriminate.
  - refine (proj2 (BlockHash_reads_the_backing_array short_block 3
                     (Slice (ramp 0 10) (replicate 6 Byte.x00)) _) _).
    + vm_compute. reflexivity.
    + vm_compute. reflexivity.
Defined.

Lemma AnyRecentTransaction_bounds_Transaction_witness :
  eval (AnyRecentTransaction (tx_ID tx0)) committed1 = Return true
  /\ (exists e, eval (Transaction (replicate 32 Byte.xbb)) committed1 = Return (Err e))
  /\ eval (AnyRecentTransaction (replicate 32 Byte.xbb)) committed1 = Return false
  /\ (eval (AnyRecentTransaction (replicate 32 Byte.xdd)) dangling = Return true
      /\ eval (Transaction (replicate 32 Byte.xdd)) dangling
         = Return (Err leveldb_ErrNotFound))
  /\ (eval (AnyRecentTransaction (replicate 32 Byte.xaa)) past_end = Return true
      /\ eval (Transaction (replicate 32 Byte.xaa)) past_end = Return (Err ErrBadOffset)).
Proof.
  assert (F : eval (AnyRecentTransaction (replicate 32 Byte.xbb)) committed1 = Return false).
  { apply (proj1 (proj2 (AnyRecentTransaction_bounds_Transaction committed1
                           (replicate 32 Byte.xbb)))).
    exists leveldb_ErrNotFound. vm_compute. reflexivity. }
  split; [|split; [|split; [|split]]].
  - assert (E : { tx | eval (Transaction (tx_ID tx0)) committed1 = Return (Ok tx) })
      by (eexists; vm_compute; reflexivity).
    destruct E as [tx E].
    exact (proj1 (proj2 (proj2 (proj2
             (AnyRecentTransaction_bounds_Transaction committed1 (tx_ID tx0))))) tx E).
  - destruct (proj1 (proj2 (proj2 (proj2 (proj2
                (AnyRecentTransaction_bounds_Transaction committed1
                   (replicate 32 Byte.xbb)))))) F) as (e & _ & E).
    exists e. exact E.
  - exact F.
  - refine (proj1 (proj2 (proj2 (proj2 (proj2 (proj2
              (AnyRecentTransaction_bounds_Transaction dangling
                 (replicate 32 Byte.xdd)))))))
              (blockRegion.mk 9 0 4) leveldb_ErrNotFound _ _).
    + vm_compute. reflexivity.
    + vm_compute. reflexivity.
  - refine (proj2 (proj2 (proj2 (proj2 (proj2 (proj2
              (AnyRecentTransaction_bounds_Transaction past_end
                 (replicate 32 Byte.xaa)))))))
              (blockRegion.mk 1 150 100)
              (Slice (replicate 32 Byte.x11 ++ ramp 32 168) (replicate 8 Byte.x00))
              _ _ _).
    + vm_compute. reflexivity.
    + vm_compute. reflexivity.
    + vm_compute. reflexivity.
Defined.

Lemma SaveBlock_panics_on_certificate_witness :
  eval (@SaveBlock signed_certs blocks block1 unsigned) NewStore = Panic
  /\ List.length (batch (exec (@SaveBlock signed_certs blocks block1 unsigned) NewStore))
     = 3%nat
  /\ lk (exec (@SaveBlock signed_certs blocks block1 unsigned) NewStore)
     = [EvLock; EvUnlock].
Proof.
  pose proof (@SaveBlock_panics_on_certificate signed_certs blocks block1 unsigned NewStore)
    as [Hp Hb].
  split; [apply Hp; reflexivity|].
  destruct Hb as [Hb Hl]; [reflexivity|].
  split; [by rewrite Hb|exact Hl].
Defined.

Lemma LastCertificate_ignores_version_witness :
  eval LastCertificate other_version = Return (Some (Byte.x07, [Byte.x5a])).
Proof.
  refine (LastCertificate_ignores_version other_version
            (Slice [Byte.xff; Byte.xff; Byte.xff; Byte.xff; Byte.x07; Byte.x5a]
               (replicate 10 Byte.x00))
            [Byte.xff; Byte.xff; Byte.xff; Byte.xff] [Byte.x07; Byte.x5a] _ _ _).
  - vm_compute. reflexivity.
  - reflexivity.
  - reflexivity.
Defined.

Lemma Transaction_block_time_witness :
  exists tx b,
    eval (Transaction (tx_ID tx0)) committed1 = Return (Ok tx)
    /\ eval (Block 1) committed1 = Return (Ok b)
    /\ CommittedTx.BlockTime tx
       = encoding.SliceToUint32 (take 4 (drop 1 (elems (CommittedBlock.Data b)))).
Proof.
  eexists. eexists.
  split; [vm_compute; reflexivity|].
  split; [vm_compute; reflexivity|].
  refine (proj2 (Transaction_block_time committed1 (tx_ID tx0) _ _) _ _ _).
  - vm_compute. reflexivity.
  - vm_compute. reflexivity.
  - vm_compute. discriminate.
Defined.
